(** * server_monitor.py: the acquisition pipeline, embedded and verified

    A shallow embedding of [server_monitor.py]: target discovery from the
    shell configuration file, the per-target SSH session, the two parsers of
    the remote tools' output, the rendering step and the polling loop of
    [main].

    Modelling conventions.
    - A Python [str] is a [string]: a sequence of characters whose code
      points lie below 256.  The character classes used by [str.strip],
      [str.split] and [re] are the Unicode ones restricted to that range.
    - A Python exception is a value of [exn]; code that can raise returns a
      [result].
    - Code that talks to the console, the file system or the network runs in
      the monad [M]: it threads a [State] (what was printed, what happened on
      the SSH sessions) and may raise.  What lies outside the program (the
      configuration file, the password typed, the clock, the hosts) is a
      [World].
    - The [while True] loop of [main] is given a number of passes; a run that
      would need more has no result. *)

From Stdlib Require Import String Ascii List Arith Bool ZArith DecimalString Lia.
Import ListNotations.

Open Scope string_scope.
Open Scope list_scope.
Open Scope nat_scope.

(** ** Exceptions and results *)

Inductive exn : Type :=
| FileNotFoundError (msg : string)
| IndexError (msg : string)
| ValueError (msg : string)
| SSHException (msg : string)
| MarkupError (msg : string).

(** [str(e)] *)
Definition str_of_exn (e : exn) : string :=
  match e with
  | FileNotFoundError msg | IndexError msg | ValueError msg | SSHException msg
  | MarkupError msg => msg
  end.

Inductive result (A : Type) : Type :=
| Ret (a : A)
| Raise (e : exn).

Arguments Ret {A} a.
Arguments Raise {A} e.

Definition rbind {A B} (r : result A) (k : A -> result B) : result B :=
  match r with
  | Ret a => k a
  | Raise e => Raise e
  end.

Declare Scope result_scope.
Delimit Scope result_scope with result.
Notation "x <- r ;; k" := (rbind r (fun x => k))
  (at level 61, r at next level, right associativity) : result_scope.

(** ** Python strings *)

Module Str.

Definition newline : ascii := "010"%char.

(** [str.isspace] on one character: TAB..CR, FS..US, SPACE, NEL, NBSP. *)
Definition isspace (c : ascii) : bool :=
  let n := nat_of_ascii c in
  ((9 <=? n) && (n <=? 13)) || ((28 <=? n) && (n <=? 32))
  || (n =? 133) || (n =? 160).

Definition is_empty (s : string) : bool :=
  match s with
  | EmptyString => true
  | String _ _ => false
  end.

(** [s.lstrip(chars)], [s.rstrip(chars)] for the set of characters [p]. *)
Fixpoint lstrip_by (p : ascii -> bool) (s : string) : string :=
  match s with
  | EmptyString => EmptyString
  | String c s' => if p c then lstrip_by p s' else s
  end.

Fixpoint rstrip_by (p : ascii -> bool) (s : string) : string :=
  match s with
  | EmptyString => EmptyString
  | String c s' =>
      match rstrip_by p s' with
      | EmptyString => if p c then EmptyString else String c EmptyString
      | r => String c r
      end
  end.

(** [s.strip()] *)
Definition strip (s : string) : string := lstrip_by isspace (rstrip_by isspace s).

(** [s.split(sep)] for a separator of one character. *)
Fixpoint split (sep : ascii) (s : string) : list string :=
  match s with
  | EmptyString => [EmptyString]
  | String c s' =>
      if Ascii.eqb c sep then EmptyString :: split sep s'
      else match split sep s' with
           | l :: ls => String c l :: ls
           | [] => [String c EmptyString]
           end
  end.

(** [s.split()]: the maximal runs of characters that are not whitespace. *)
Fixpoint split_ws (s : string) : list string :=
  match s with
  | EmptyString => []
  | String c s' =>
      if isspace c then split_ws s'
      else match s' with
           | EmptyString => [String c EmptyString]
           | String c' _ =>
               if isspace c' then String c EmptyString :: split_ws s'
               else match split_ws s' with
                    | w :: ws => String c w :: ws
                    | [] => [String c EmptyString]
                    end
           end
  end.

(** [sep.join(ls)] for a separator of one character. *)
Fixpoint join (sep : ascii) (ls : list string) : string :=
  match ls with
  | [] => EmptyString
  | [l] => l
  | l :: ls' => (l ++ String sep (join sep ls'))%string
  end.

Fixpoint all_chars (p : ascii -> bool) (s : string) : bool :=
  match s with
  | EmptyString => true
  | String c s' => p c && all_chars p s'
  end.

End Str.

(** [parts[i]] on a Python list. *)
Definition getitem {A} (xs : list A) (i : nat) : result A :=
  match nth_error xs i with
  | Some x => Ret x
  | None => Raise (IndexError "list index out of range")
  end.

(** [for x in xs: body], the loop's variables threaded as [acc]. *)
Fixpoint for_each {A S} (xs : list A) (body : A -> S -> result S) (acc : S) : result S :=
  match xs with
  | [] => Ret acc
  | x :: xs' =>
      match body x acc with
      | Ret acc' => for_each xs' body acc'
      | Raise e => Raise e
      end
  end.

(** ** The records of the two tables *)

Record GpuRecord : Type := mkGpu {
  gpu_id : string;
  name : string;
  memory_used : string;
  memory_total : string;
  utilization : string
}.

Record StorageRecord : Type := mkStorage {
  filesystem : string;
  size : string;
  used : string;
  available : string;
  use_percent : string;
  mounted_on : string
}.

(** ** The parsers *)

(** [parse_gpu_info]: the output of [nvidia-smi]. *)
Definition parse_gpu_info (gpu_info : string) : result (list GpuRecord) :=
  let lines := Str.split Str.newline (Str.strip gpu_info) in
  for_each (skipn 2 lines)
    (fun line gpus =>
       if Str.is_empty (Str.strip line) then Ret gpus
       else
         let parts := Str.split_ws line in
         if 13 <=? length parts then
           (p1 <- getitem parts 1 ;;
            p2 <- getitem parts 2 ;;
            p8 <- getitem parts 8 ;;
            p10 <- getitem parts 10 ;;
            p12 <- getitem parts 12 ;;
            Ret (gpus ++ [mkGpu p1 p2 p8 p10 p12]))%result
         else Ret gpus)
    [].

(** [parse_storage_info]: the output of [df -h]. *)
Definition parse_storage_info (storage_info : string) : result (list StorageRecord) :=
  let lines := Str.split Str.newline (Str.strip storage_info) in
  for_each (skipn 1 lines)
    (fun line storage =>
       if Str.is_empty (Str.strip line) then Ret storage
       else
         let parts := Str.split_ws line in
         if 6 <=? length parts then
           (p0 <- getitem parts 0 ;;
            p1 <- getitem parts 1 ;;
            p2 <- getitem parts 2 ;;
            p3 <- getitem parts 3 ;;
            p4 <- getitem parts 4 ;;
            p5 <- getitem parts 5 ;;
            Ret (storage ++ [mkStorage p0 p1 p2 p3 p4 p5]))%result
         else Ret storage)
    [].

(** ** Integers from text *)

Definition is_digit (c : ascii) : bool :=
  let n := nat_of_ascii c in (48 <=? n) && (n <=? 57).

Definition digit_value (c : ascii) : Z := Z.of_nat (nat_of_ascii c - 48).

(** [str(n)] for a number that is not negative. *)
Definition str_of_nat (n : nat) : string := NilEmpty.string_of_uint (Nat.to_uint n).

Definition backslash : ascii := "092"%char.

Definition double_quote : ascii := "034"%char.

Definition single_quote : ascii := "039"%char.

Fixpoint contains (c : ascii) (s : string) : bool :=
  match s with
  | EmptyString => false
  | String c' s' => Ascii.eqb c' c || contains c s'
  end.

(** [str.isprintable] on one character. *)
Definition printable (c : ascii) : bool :=
  let n := nat_of_ascii c in
  ((32 <=? n) && (n <=? 126)) || ((161 <=? n) && (n <=? 172)) || (174 <=? n).

Definition hex_digit (n : nat) : ascii :=
  nth n ["0"; "1"; "2"; "3"; "4"; "5"; "6"; "7"; "8"; "9"; "a"; "b"; "c"; "d"; "e"; "f"]%char
      "0"%char.

(** One character of [repr(s)], between quotes [quote]. *)
Definition repr_char (quote : ascii) (c : ascii) : string :=
  let n := nat_of_ascii c in
  if Ascii.eqb c backslash then String backslash (String backslash EmptyString)
  else if Ascii.eqb c quote then String backslash (String quote EmptyString)
  else if n =? 9 then String backslash "t"
  else if n =? 10 then String backslash "n"
  else if n =? 13 then String backslash "r"
  else if printable c then String c EmptyString
  else String backslash
         (String "x" (String (hex_digit (n / 16)) (String (hex_digit (n mod 16)) EmptyString))).

Fixpoint repr_chars (quote : ascii) (s : string) : string :=
  match s with
  | EmptyString => EmptyString
  | String c s' => (repr_char quote c ++ repr_chars quote s')%string
  end.

(** [repr(s)]: between single quotes, unless [s] holds a single quote and no
    double quote. *)
Definition repr (s : string) : string :=
  let quote :=
    if contains single_quote s && negb (contains double_quote s) then double_quote
    else single_quote in
  String quote (repr_chars quote s ++ String quote EmptyString).

(** [s[:n]] *)
Fixpoint first_chars (n : nat) (s : string) : string :=
  match n, s with
  | S n', String c s' => String c (first_chars n' s')
  | _, _ => EmptyString
  end.

(** The digits at the start of an integer literal, single underscores
    allowed between two digits: their value, how many they are and what
    follows them; nothing when the literal starts with no digit or an
    underscore is not between two digits. *)
Fixpoint scan_digits (acc : Z) (digits : nat) (after_digit : bool) (s : string)
  : option (Z * nat * string) :=
  match s with
  | EmptyString => if after_digit then Some (acc, digits, s) else None
  | String c s' =>
      if is_digit c then scan_digits (acc * 10 + digit_value c)%Z (S digits) true s'
      else if Ascii.eqb c "_" then
        if after_digit then scan_digits acc digits false s' else None
      else if after_digit then Some (acc, digits, s) else None
  end.

(** The whitespace that [int] ignores around a literal: TAB..CR, SPACE, NEL
    and NBSP (not FS..US, which [str.strip] removes). *)
Definition int_space (c : ascii) : bool :=
  let n := nat_of_ascii c in
  ((9 <=? n) && (n <=? 13)) || (n =? 32) || (n =? 133) || (n =? 160).

(** The most digits that [int] converts: [sys.int_info.default_max_str_digits]
    of CPython 3.11. *)
Definition int_max_str_digits : nat := 4300.

(** [int(s)] for a string [s]: whitespace is ignored around the literal, one
    sign is allowed, and a literal of more than [int_max_str_digits] digits is
    refused, before what follows its digits is looked at. *)
Definition int (s : string) : result Z :=
  let invalid :=
    Raise (ValueError ("invalid literal for int() with base 10: " ++
                       first_chars 200 (repr s))) in
  let t := Str.lstrip_by int_space s in
  let '(negative, body) :=
    match t with
    | String "-" r => (true, r)
    | String "+" r => (false, r)
    | _ => (false, t)
    end in
  match scan_digits 0 0 false body with
  | None => invalid
  | Some (n, digits, rest) =>
      if int_max_str_digits <? digits then
        Raise (ValueError
                 ("Exceeds the limit (" ++ str_of_nat int_max_str_digits ++
                  " digits) for integer string conversion: value has " ++
                  str_of_nat digits ++
                  " digits; use sys.set_int_max_str_digits() to increase the limit"))
      else if Str.is_empty (Str.lstrip_by int_space rest) then
        Ret (if negative then (- n)%Z else n)
      else invalid
  end.

(** ** Regular expressions: the fragment [read_zshrc_aliases] uses *)

Module Re.

(** A pattern is a sequence of literal characters and of capturing groups
    [(C+)] over a character class [C]. *)
Inductive item : Type :=
| Lit (c : ascii)
| Group (cls : ascii -> bool).

Definition pattern : Type := list item.

Fixpoint lits (s : string) : pattern :=
  match s with
  | EmptyString => []
  | String c s' => Lit c :: lits s'
  end.

(** [\d], [\w] and [[\d\.]] on characters below 256. *)
Definition digit : ascii -> bool := is_digit.

Definition word (c : ascii) : bool :=
  let n := nat_of_ascii c in
  ((48 <=? n) && (n <=? 57)) || ((65 <=? n) && (n <=? 90)) || (n =? 95)
  || ((97 <=? n) && (n <=? 122))
  || (n =? 170) || (n =? 178) || (n =? 179) || (n =? 181) || (n =? 185) || (n =? 186)
  || ((188 <=? n) && (n <=? 190))
  || ((192 <=? n) && (n <=? 214)) || ((216 <=? n) && (n <=? 246)) || (248 <=? n).

Definition digit_or_dot (c : ascii) : bool := is_digit c || Ascii.eqb c ".".

(** The greedy [C+] of the backtracking matcher: take one more character of
    the class while that leads to a match, else stop here and go on with
    the rest of the pattern, [k]. *)
Fixpoint plus {R} (cls : ascii -> bool) (k : string -> string -> option R)
         (taken : string) (s : string) : option R :=
  match s with
  | EmptyString => None
  | String c s' =>
      if cls c then
        let taken' := (taken ++ String c EmptyString)%string in
        match plus cls k taken' s' with
        | Some r => Some r
        | None => k taken' s'
        end
      else None
  end.

(** [pattern.match(s)]: the groups of the match that starts [s], and what
    follows the match. *)
Fixpoint match_here (p : pattern) (s : string) : option (list string * string) :=
  match p with
  | [] => Some ([], s)
  | Lit c :: p' =>
      match s with
      | String c' s' => if Ascii.eqb c c' then match_here p' s' else None
      | EmptyString => None
      end
  | Group cls :: p' =>
      plus cls
        (fun g rest =>
           match match_here p' rest with
           | Some (gs, r) => Some (g :: gs, r)
           | None => None
           end)
        EmptyString s
  end.

(** [re.finditer]: the matches from left to right, none overlapping.
    [skip] counts the characters of the last match that are still to be
    passed over before the search resumes. *)
Fixpoint scan (p : pattern) (skip : nat) (s : string) : list (list string) :=
  match skip with
  | S k =>
      match s with
      | String _ s' => scan p k s'
      | EmptyString => []
      end
  | O =>
      match match_here p s with
      | Some (groups, rest) =>
          groups ::
            match s with
            | String _ s' => scan p (String.length s - String.length rest - 1) s'
            | EmptyString => []
            end
      | None =>
          match s with
          | String _ s' => scan p 0 s'
          | EmptyString => []
          end
      end
  end.

Definition finditer (p : pattern) (s : string) : list (list string) := scan p 0 s.

End Re.

Definition nl : string := String Str.newline EmptyString.

(** ** Console markup

    What the console library, rich, does with a text before it prints it
    ([rich.markup.render], rich 13): it looks for tags, [[name]] and
    [[/name]], and raises [MarkupError] on a closing tag that closes
    nothing. *)

Module Rich.

(** The parts of the library that its markup relies on, taken as they are:
    the normal form of a style name ([Style.normalize]), and, for the
    parameters of a handler tag ([[@name=parameters]]), the message of the
    error when they do not evaluate. *)
Record Tables : Type := mkTables {
  normalize : string -> string;
  handler_error : string -> option string
}.

Record Tag : Type := mkTag {
  tag_name : string;
  parameters : option string
}.

(** [[a-z#/@]] *)
Definition tag_start (c : ascii) : bool :=
  let n := nat_of_ascii c in
  ((97 <=? n) && (n <=? 122)) || Ascii.eqb c "#" || Ascii.eqb c "/" || Ascii.eqb c "@".

(** [[^[]*?]] and the bracket that closes the tag: the characters up to the
    first closing bracket, none of them an opening bracket, and what follows
    that bracket. *)
Fixpoint tag_text (s : string) : option (string * string) :=
  match s with
  | EmptyString => None
  | String c s' =>
      if Ascii.eqb c "]" then Some (EmptyString, s')
      else if Ascii.eqb c "[" then None
      else match tag_text s' with
           | Some (text, rest) => Some (String c text, rest)
           | None => None
           end
  end.

(** [RE_TAGS.match(s)]: backslashes, then a tag; the number of backslashes,
    the text of the tag and what follows the match. *)
Fixpoint tag_here (s : string) : option (nat * string * string) :=
  match s with
  | EmptyString => None
  | String c s' =>
      if Ascii.eqb c backslash then
        match tag_here s' with
        | Some (escapes, text, rest) => Some (S escapes, text, rest)
        | None => None
        end
      else if Ascii.eqb c "[" then
        match s' with
        | String d s'' =>
            if tag_start d then
              match tag_text s'' with
              | Some (text, rest) => Some (0, String d text, rest)
              | None => None
              end
            else None
        | EmptyString => None
        end
      else None
  end.

(** [RE_TAGS.finditer]: the matches from left to right, none overlapping,
    each with the position where it starts.  [skip] counts the characters of
    the last match that are still to be passed over. *)
Fixpoint finditer (skip : nat) (position : nat) (s : string) : list (nat * nat * string) :=
  match s with
  | EmptyString => []
  | String _ s' =>
      match skip with
      | S k => finditer k (S position) s'
      | O =>
          match tag_here s with
          | Some (escapes, text, _) =>
              (position, escapes, text) ::
              finditer (escapes + String.length text + 1) (S position) s'
          | None => finditer 0 (S position) s'
          end
      end
  end.

(** [s.partition(sep)]: what stands before the first [sep], and what stands
    after it when there is one. *)
Fixpoint partition (sep : ascii) (s : string) : string * option string :=
  match s with
  | EmptyString => (EmptyString, None)
  | String c s' =>
      if Ascii.eqb c sep then (EmptyString, Some s')
      else let '(before, after) := partition sep s' in (String c before, after)
  end.

(** [_parse], its tags: a match that starts with an odd number of
    backslashes is text, any other is a tag, met after its backslashes. *)
Definition parse (markup : string) : list (nat * Tag) :=
  flat_map
    (fun '(start, escapes, text) =>
       if Nat.odd escapes then []
       else let '(name, params) := partition "=" text in
            [(start + escapes, mkTag name params)])
    (finditer 0 0 markup).

Definition starts_with (c : ascii) (s : string) : bool :=
  match s with
  | String c' _ => Ascii.eqb c' c
  | EmptyString => false
  end.

(** [s[1:]] *)
Definition tail (s : string) : string :=
  match s with
  | String _ s' => s'
  | EmptyString => EmptyString
  end.

(** [tag.markup] *)
Definition markup_of (tag : Tag) : string :=
  match parameters tag with
  | None => "[" ++ tag_name tag ++ "]"
  | Some p => "[" ++ tag_name tag ++ "=" ++ p ++ "]"
  end.

(** [pop_style]: the open tag of that name nearest to the top of the stack,
    taken out of the stack. *)
Fixpoint pop_style (style_name : string) (style_stack : list Tag)
  : option (Tag * list Tag) :=
  match style_stack with
  | [] => None
  | tag :: below =>
      if String.eqb (tag_name tag) style_name then Some (tag, below)
      else match pop_style style_name below with
           | Some (open_tag, rest) => Some (open_tag, tag :: rest)
           | None => None
           end
  end.

(** One tag met by [render]: a closing tag takes an open tag off the stack,
    any other tag is put on it. *)
Definition render_tag (t : Tables) (position : nat) (tag : Tag) (style_stack : list Tag)
  : result (list Tag) :=
  if starts_with "/" (tag_name tag) then
    let style_name := Str.strip (tail (tag_name tag)) in
    (popped <-
       (if Str.is_empty style_name then
          match style_stack with
          | open_tag :: below => Ret (open_tag, below)
          | [] =>
              Raise (MarkupError ("closing tag '[/]' at position " ++ str_of_nat position ++
                                  " has nothing to close"))
          end
        else
          match pop_style (normalize t style_name) style_stack with
          | Some found => Ret found
          | None =>
              Raise (MarkupError ("closing tag '" ++ markup_of tag ++ "' at position " ++
                                  str_of_nat position ++ " doesn't match any open tag"))
          end) ;;
     let '(open_tag, rest) := popped in
     if starts_with "@" (tag_name open_tag) then
       match parameters open_tag with
       | Some (String c p) =>
           match handler_error t (String c p) with
           | Some msg => Raise (MarkupError msg)
           | None => Ret rest
           end
       | _ => Ret rest
       end
     else Ret rest)%result
  else Ret (mkTag (normalize t (tag_name tag)) (parameters tag) :: style_stack).

(** [render(markup)], for what it raises: the tags still open at the end
    are closed there. *)
Definition render (t : Tables) (markup : string) : result unit :=
  if contains "[" markup then
    (_ <- for_each (parse markup)
            (fun '(position, tag) style_stack => render_tag t position tag style_stack) [] ;;
     Ret tt)%result
  else Ret tt.

End Rich.

(** ** The data of a poll *)

Record ServerTarget : Type := mkTarget {
  host : string;
  username : string;
  port : Z
}.

(** What [get_server_info] returns: the dictionary with the keys [gpu_info]
    and [storage_info], or the dictionary with the key [error]. *)
Inductive FetchResult : Type :=
| Success (gpu_info : list GpuRecord) (storage_info : list StorageRecord)
| Failure (error : string).

(** ** The world outside the program *)

(** How one remote host answers one SSH client: whether [connect] raises,
    and what [exec_command] followed by [read] and [decode] gives for a
    command. *)
Record Host : Type := mkHost {
  refuses : option exn;
  run : string -> result string
}.

(** A reading of the clock. *)
Record DateTime : Type := mkDateTime {
  year : nat;
  month : nat;
  day : nat;
  hour : nat;
  minute : nat;
  second : nat
}.

Record World : Type := mkWorld {
  zshrc : option string;     (* the text of ~/.zshrc, if the file exists *)
  typed_password : string;   (* what the user types at the prompt *)
  clock : nat -> DateTime;   (* the time at the n-th reading of the clock *)
  network : nat -> ServerTarget -> string -> Host;
    (* the host met by the n-th SSH client, for a target and a password *)
  rich : Rich.Tables         (* the styles and handlers of the console library *)
}.

(** ** What the program does to the world *)

Record Table : Type := mkTable {
  columns : list (string * string);   (* header and style *)
  rows : list (list string)
}.

Inductive Renderable : Type :=
| Markup (text : string)
| Panel (text : string)
| Grid (table : Table).

Inductive ConsoleEvent : Type :=
| Printed (r : Renderable)
| Cleared
| Prompted (prompt : string).

Inductive SshEvent : Type :=
| Connected (client : nat) (server : ServerTarget)
| Executed (client : nat) (command : string)
| Closed (client : nat).

Record State : Type := mkState {
  console : list ConsoleEvent;
  ssh_log : list SshEvent;
  clients : nat;         (* SSH clients created so far *)
  clock_reads : nat;     (* readings of the clock so far *)
  fetched : list (ServerTarget * FetchResult)
    (* history variable: what get_server_info returned to main, in order *)
}.

Definition initial : State := mkState [] [] 0 0 [].

(** The sessions that a log leaves open. *)
Fixpoint open_sessions_from (opened : list nat) (log : list SshEvent) : list nat :=
  match log with
  | [] => opened
  | Connected c _ :: log' => open_sessions_from (opened ++ [c]) log'
  | Executed _ _ :: log' => open_sessions_from opened log'
  | Closed c :: log' => open_sessions_from (filter (fun c' => negb (c' =? c)) opened) log'
  end.

Definition open_sessions (log : list SshEvent) : list nat := open_sessions_from [] log.

(** ** The monad of effects *)

(** A computation steps from a state to a result and a state; [None] when a
    loop has used up the passes it was given. *)
Definition M (A : Type) : Type := State -> option (result A * State).

Definition ret {A} (a : A) : M A := fun st => Some (Ret a, st).

Definition raise {A} (e : exn) : M A := fun st => Some (Raise e, st).

Definition bind {A B} (m : M A) (k : A -> M B) : M B :=
  fun st =>
    match m st with
    | Some (Ret a, st') => k a st'
    | Some (Raise e, st') => Some (Raise e, st')
    | None => None
    end.

Definition lift {A} (r : result A) : M A := fun st => Some (r, st).

(** [try: m  except Exception as e: handler e] *)
Definition try_except {A} (m : M A) (handler : exn -> M A) : M A :=
  fun st =>
    match m st with
    | Some (Raise e, st') => handler e st'
    | other => other
    end.

Declare Scope M_scope.
Delimit Scope M_scope with M.
Bind Scope M_scope with M.
Notation "x <- m ;; k" := (bind m (fun x => k))
  (at level 61, m at next level, right associativity) : M_scope.
Notation "m ;; k" := (bind m (fun _ => k))
  (at level 61, right associativity) : M_scope.

(** [for x in xs: body] *)
Fixpoint for_M {A} (xs : list A) (body : A -> M unit) : M unit :=
  match xs with
  | [] => ret tt
  | x :: xs' => (body x ;; for_M xs' body)%M
  end.

(** How a pass of a [while True] loop ends: at its last statement, or at a
    [break]. *)
Inductive signal : Type := Next | Break.

Fixpoint while_true (fuel : nat) (body : M signal) : M unit :=
  match fuel with
  | O => fun _ => None
  | S fuel' =>
      (s <- body ;;
       match s with
       | Break => ret tt
       | Next => while_true fuel' body
       end)%M
  end.

(** *** Console, clock and prompt *)

Definition console_emit (ev : ConsoleEvent) : M unit :=
  fun st => Some (Ret tt, mkState (console st ++ [ev]) (ssh_log st) (clients st)
                                  (clock_reads st) (fetched st)).

(** The cells of a table in the order in which the console renders them:
    column after column, the header of a column before its cells; a row that
    is short of a cell has an empty one. *)
Definition table_width (t : Table) : nat :=
  fold_right Nat.max (length (columns t)) (map (@length string) (rows t)).

Definition column_cells (t : Table) (j : nat) : list string :=
  nth j (map fst (columns t)) EmptyString ::
  map (fun row => nth j row EmptyString) (rows t).

Definition table_cells (t : Table) : list string :=
  flat_map (column_cells t) (seq 0 (table_width t)).

(** What rendering [r] raises: the text of a line, of a panel and of each
    cell of a table is markup. *)
Definition render_error (t : Rich.Tables) (r : Renderable) : result unit :=
  match r with
  | Markup text | Panel text => Rich.render t text
  | Grid table => for_each (table_cells table) (fun cell _ => Rich.render t cell) tt
  end.

(** [console.print(r)]: nothing is printed of what cannot be rendered. *)
Definition console_print (w : World) (r : Renderable) : M unit :=
  (lift (render_error (rich w) r) ;; console_emit (Printed r))%M.

Definition console_clear : M unit := console_emit Cleared.

(** [getpass.getpass(prompt)] *)
Definition getpass (w : World) (prompt : string) : M string :=
  (console_emit (Prompted prompt) ;; ret (typed_password w))%M.

Definition two_digits (n : nat) : string :=
  ((if Nat.ltb n 10 then "0" else EmptyString) ++ str_of_nat n)%string.

(** [d.strftime("%Y-%m-%d %H:%M:%S")], for a year of four digits. *)
Definition strftime (d : DateTime) : string :=
  (str_of_nat (year d) ++ "-" ++ two_digits (month d) ++ "-" ++ two_digits (day d) ++ " " ++
   two_digits (hour d) ++ ":" ++ two_digits (minute d) ++ ":" ++ two_digits (second d))%string.

(** [datetime.now().strftime(...)] *)
Definition now_strftime (w : World) : M string :=
  fun st => Some (Ret (strftime (clock w (clock_reads st))),
                  mkState (console st) (ssh_log st) (clients st)
                          (S (clock_reads st)) (fetched st)).

Definition record_fetched (server : ServerTarget) (info : FetchResult) : M unit :=
  fun st => Some (Ret tt, mkState (console st) (ssh_log st) (clients st)
                                  (clock_reads st) (fetched st ++ [(server, info)])).

(** [open(path).read()] of the configuration file. *)
Definition read_file (w : World) (path : string) : M string :=
  match zshrc w with
  | Some content => ret content
  | None => raise (FileNotFoundError ("[Errno 2] No such file or directory: '" ++ path ++ "'"))
  end.

(** *** SSH clients *)

Record SSHClient : Type := mkClient {
  client_id : nat;
  peer : option Host    (* the host, once connected *)
}.

Definition ssh_emit (ev : SshEvent) : M unit :=
  fun st => Some (Ret tt, mkState (console st) (ssh_log st ++ [ev]) (clients st)
                                  (clock_reads st) (fetched st)).

(** [paramiko.SSHClient()] *)
Definition new_SSHClient : M SSHClient :=
  fun st => Some (Ret (mkClient (clients st) None),
                  mkState (console st) (ssh_log st) (S (clients st))
                          (clock_reads st) (fetched st)).

(** [ssh.set_missing_host_key_policy(paramiko.AutoAddPolicy())]: any host key
    is accepted; nothing is seen of it. *)
Definition set_missing_host_key_policy (ssh : SSHClient) : M unit := ret tt.

(** [ssh.connect(host, port=, username=, password=)]: the client, connected. *)
Definition connect (w : World) (ssh : SSHClient) (server : ServerTarget) (password : string)
  : M SSHClient :=
  let h := network w (client_id ssh) server password in
  match refuses h with
  | Some e => raise e
  | None => (ssh_emit (Connected (client_id ssh) server) ;;
             ret (mkClient (client_id ssh) (Some h)))%M
  end.

(** [_, stdout, _ = ssh.exec_command(cmd)] and [stdout.read().decode()] *)
Definition exec_command (ssh : SSHClient) (command : string) : M string :=
  match peer ssh with
  | None => raise (SSHException "SSH session not active")
  | Some h => (ssh_emit (Executed (client_id ssh) command) ;; lift (run h command))%M
  end.

(** [ssh.close()] *)
Definition close (ssh : SSHClient) : M unit := ssh_emit (Closed (client_id ssh)).

(** ** Target discovery *)

(** [r'ssh -P (\d+) (\w+)@([\d\.]+)'] *)
Definition ssh_pattern : Re.pattern :=
  Re.lits "ssh -P " ++
  [Re.Group Re.digit; Re.Lit " "; Re.Group Re.word; Re.Lit "@"; Re.Group Re.digit_or_dot].

(** The body of the loop over the matches: [match.groups()] is unpacked into
    three names and a dictionary is appended. *)
Definition append_server (groups : list string) (server_info : list ServerTarget)
  : result (list ServerTarget) :=
  match groups with
  | [port; username; host] =>
      (p <- int port ;;
       Ret (server_info ++ [mkTarget host username p]))%result
  | _ => Raise (ValueError "not enough values to unpack")
  end.

Definition read_zshrc_aliases (w : World) : M (list ServerTarget) :=
  try_except
    (content <- read_file w "~/.zshrc" ;;
     lift (for_each (Re.finditer ssh_pattern content) append_server []))%M
    (fun e =>
       match e with
       | FileNotFoundError _ =>
           (console_print w (Markup "[red]Error: .zshrc file not found[/red]") ;;
            ret [])%M
       | _ => raise e
       end).

(** ** One target *)

Definition get_server_info (w : World) (server : ServerTarget) (password : string)
  : M FetchResult :=
  try_except
    (ssh <- new_SSHClient ;;
     set_missing_host_key_policy ssh ;;
     ssh <- connect w ssh server password ;;
     gpu_info <- try_except (exec_command ssh "nvidia-smi")
                            (fun _ => ret "No GPU information available") ;;
     storage_info <- exec_command ssh "df -h" ;;
     close ssh ;;
     gpus <- lift (parse_gpu_info gpu_info) ;;
     storage <- lift (parse_storage_info storage_info) ;;
     ret (Success gpus storage))%M
    (fun e => ret (Failure (str_of_exn e))).

(** ** Rendering *)

Definition add_row (t : Table) (cells : list string) : Table :=
  mkTable (columns t) (rows t ++ [cells]).

Definition create_gpu_table (gpus : list GpuRecord) : Table :=
  fold_left
    (fun table gpu =>
       add_row table [gpu_id gpu; name gpu; memory_used gpu; memory_total gpu; utilization gpu])
    gpus
    (mkTable [("GPU ID", "cyan"); ("Name", "green"); ("Memory Used", "yellow");
              ("Memory Total", "yellow"); ("Utilization", "blue")] []).

Definition percent_style (use_percent : Z) : string :=
  if (90 <? use_percent)%Z then "red"
  else if (70 <? use_percent)%Z then "yellow"
  else "green".

Definition create_storage_table (storage : list StorageRecord) : result Table :=
  for_each storage
    (fun disk table =>
       (p <- int (Str.rstrip_by (Ascii.eqb "%") (use_percent disk)) ;;
        let style := percent_style p in
        Ret (add_row table
               [filesystem disk; size disk; used disk; available disk;
                "[" ++ style ++ "]" ++ use_percent disk ++ "[/" ++ style ++ "]";
                mounted_on disk]))%result%string)
    (mkTable [("Filesystem", "cyan"); ("Size", "green"); ("Used", "yellow");
              ("Available", "yellow"); ("Use%", "blue"); ("Mounted on", "green")] []).

Fixpoint repeat_string (s : string) (n : nat) : string :=
  match n with
  | O => EmptyString
  | S n' => (s ++ repeat_string s n')%string
  end.

Definition display_server_info (w : World) (server : ServerTarget) (info : FetchResult)
  : M unit :=
  (console_print w (Panel ("[bold blue]Server: " ++ host server ++ "[/bold blue]")) ;;
   match info with
   | Failure error =>
       console_print w (Markup ("[red]Error: " ++ error ++ "[/red]"))
   | Success gpu_info storage_info =>
       console_print w (Markup (nl ++ "[bold green]GPU Information:[/bold green]")) ;;
       match gpu_info with
       | _ :: _ => console_print w (Grid (create_gpu_table gpu_info))
       | [] => console_print w (Markup "[yellow]No GPU information available[/yellow]")
       end ;;
       console_print w (Markup (nl ++ "[bold green]Storage Information:[/bold green]")) ;;
       table <- lift (create_storage_table storage_info) ;;
       console_print w (Grid table) ;;
       console_print w (Markup (nl ++ repeat_string "=" 80 ++ nl))
   end)%M%string.

(** ** The program *)

(** The body of the loop over the targets.  [record_fetched] is no statement
    of the program: it keeps, for the properties below, the value that
    [get_server_info] returned. *)
Definition poll (w : World) (password : string) (server : ServerTarget) : M unit :=
  (info <- get_server_info w server password ;;
   record_fetched server info ;;
   display_server_info w server info)%M.

Definition main (w : World) (fuel : nat) : M unit :=
  (servers <- read_zshrc_aliases w ;;
   match servers with
   | [] => console_print w (Markup "[red]No servers found in .zshrc file[/red]")
   | _ :: _ =>
       password <- getpass w "Enter server password: " ;;
       while_true fuel
         (console_clear ;;
          current_time <- now_strftime w ;;
          console_print w
            (Panel ("[bold yellow]Server Monitoring Dashboard[/bold yellow]" ++ nl ++
                    "[dim]Last updated: " ++ current_time ++ "[/dim]")) ;;
          console_print w
            (Markup ("Monitoring " ++ str_of_nat (length servers) ++ " servers..." ++ nl)) ;;
          for_M servers (poll w password) ;;
          ret Break)
   end)%M%string.

(** * Definitions for the properties *)

(** ** The tables as the specification words them *)

Definition blank (line : string) : bool := Str.is_empty (Str.strip line).

(** The record of a GPU row: fields 1, 2, 8, 10 and 12 of a row of at least
    13 fields. *)
Definition gpu_row (line : string) : option GpuRecord :=
  let fields := Str.split_ws line in
  if 13 <=? length fields then
    Some (mkGpu (nth 1 fields EmptyString) (nth 2 fields EmptyString)
                (nth 8 fields EmptyString) (nth 10 fields EmptyString)
                (nth 12 fields EmptyString))
  else None.

(** The record of a storage row: fields 0 to 5 of a row of at least 6
    fields. *)
Definition storage_row (line : string) : option StorageRecord :=
  let fields := Str.split_ws line in
  if 6 <=? length fields then
    Some (mkStorage (nth 0 fields EmptyString) (nth 1 fields EmptyString)
                    (nth 2 fields EmptyString) (nth 3 fields EmptyString)
                    (nth 4 fields EmptyString) (nth 5 fields EmptyString))
  else None.

(** The records of the lines that are not blank, in the order of the lines. *)
Definition records_of {R} (row : string -> option R) (lines : list string) : list R :=
  flat_map
    (fun line =>
       if blank line then []
       else match row line with
            | Some r => [r]
            | None => []
            end)
    lines.

(** The table read from a text: its lines but the first [header], row by row. *)
Definition table_of {R} (header : nat) (row : string -> option R) (text : string) : list R :=
  records_of row (skipn header (Str.split Str.newline text)).

Definition gpu_table : string -> list GpuRecord := table_of 2 gpu_row.

Definition storage_table : string -> list StorageRecord := table_of 1 storage_row.

(** A character other than [sep]. *)
Definition differs_from (sep : ascii) (c : ascii) : bool := negb (Ascii.eqb c sep).

(** ** Target discovery as the specification words it *)

(** The value of a string of decimal digits. *)
Fixpoint decimal_from (acc : Z) (s : string) : Z :=
  match s with
  | EmptyString => acc
  | String c s' => decimal_from (acc * 10 + digit_value c)%Z s'
  end.

Definition decimal (s : string) : Z := decimal_from 0 s.

(** The target of one match: its groups are the port, the user and the host. *)
Definition target_of_match (groups : list string) : ServerTarget :=
  mkTarget (nth 2 groups EmptyString) (nth 1 groups EmptyString)
           (decimal (nth 0 groups EmptyString)).

(** The targets that one line of the configuration gives. *)
Definition line_targets (line : string) : list ServerTarget :=
  map target_of_match (Re.finditer ssh_pattern line).

(** The lines of a text that match the pattern. *)
Definition matching_lines (text : string) : list string :=
  filter (fun line => match Re.finditer ssh_pattern line with [] => false | _ :: _ => true end)
         (Str.split Str.newline text).

(** What the caller of [read_zshrc_aliases] holds when it returns. *)
Definition returned {A} (run : option (result A * State)) : option (result A) :=
  option_map fst run.

(** ** Matching at the end of a line *)

(** A match of [x], seen as a match of [x] followed by [tail]. *)
Definition followed_by (tail : string) (m : option (list string * string))
  : option (list string * string) :=
  match m with
  | Some (groups, rest) => Some (groups, (rest ++ tail)%string)
  | None => None
  end.

(** An item of a pattern that cannot take the character [c]. *)
Definition avoids (c : ascii) (it : Re.item) : bool :=
  match it with
  | Re.Lit c' => negb (Ascii.eqb c' c)
  | Re.Group cls => negb (cls c)
  end.

(** ** One target, seen from the host it meets *)

(** The text that [parse_gpu_info] is given: what the GPU tool wrote, or the
    placeholder when running the tool raised. *)
Definition gpu_text (h : Host) : string :=
  match run h "nvidia-smi" with
  | Ret out => out
  | Raise _ => "No GPU information available"
  end.

Definition fetch_result (h : Host) : FetchResult :=
  match refuses h with
  | Some e => Failure (str_of_exn e)
  | None =>
      match run h "df -h" with
      | Ret out => Success (gpu_table (Str.strip (gpu_text h))) (storage_table (Str.strip out))
      | Raise e => Failure (str_of_exn e)
      end
  end.

(** What the session of one client leaves in the log. *)
Definition session_events (client : nat) (server : ServerTarget) (h : Host) : list SshEvent :=
  match refuses h with
  | Some _ => []
  | None =>
      [Connected client server; Executed client "nvidia-smi"; Executed client "df -h"] ++
      match run h "df -h" with
      | Ret _ => [Closed client]
      | Raise _ => []
      end
  end.

Definition after_fetch (server : ServerTarget) (h : Host) (st : State) : State :=
  mkState (console st) (ssh_log st ++ session_events (clients st) server h)
          (S (clients st)) (clock_reads st) (fetched st).

(** The state once [get_server_info] returned [info] for [server] to [main]. *)
Definition recorded (server : ServerTarget) (info : FetchResult) (st : State) : State :=
  mkState (console st) (ssh_log st) (clients st) (clock_reads st)
          (fetched st ++ [(server, info)]).

(** ** The console *)

(** The state once [events] went to the console. *)
Definition printed (events : list ConsoleEvent) (st : State) : State :=
  mkState (console st ++ events) (ssh_log st) (clients st) (clock_reads st) (fetched st).

Definition file_not_found_message : ConsoleEvent :=
  Printed (Markup "[red]Error: .zshrc file not found[/red]").

Definition no_servers_message : ConsoleEvent :=
  Printed (Markup "[red]No servers found in .zshrc file[/red]").

(** The passes of the polling loop that a console shows: each pass starts by
    clearing it. *)
Definition passes (events : list ConsoleEvent) : nat :=
  length (filter (fun ev => match ev with Cleared => true | _ => false end) events).

(** ** Rendering *)

(** The percentage of a row can be read: what [create_storage_table] asks of
    each row. *)
Definition percent_readable (disk : StorageRecord) : Prop :=
  exists p, int (Str.rstrip_by (Ascii.eqb "%") (use_percent disk)) = Ret p.

(** ** Texts, hosts and worlds of the examples *)

Definition gpu_header_1 : string := "GPU  Name  Memory-Usage  GPU-Util".

Definition gpu_header_2 : string := "=================================".

Definition gpu_line_0 : string := "| 0 A100 On | 00000000:17:00.0 Off | 1024MiB / 40960MiB | 5% |".

Definition gpu_line_1 : string := "| 1 A100 On | 00000000:65:00.0 Off | 2048MiB / 40960MiB | 97% |".

Definition gpu_line_2 : string := "| 2 A100 On | 00000000:CA:00.0 Off | 0MiB / 40960MiB | 0% |  ".

(** An output of the GPU tool that starts with an empty line: the header
    follows, then one row of 13 fields. *)
Definition gpu_output_after_empty_line : string :=
  (nl ++ "GPU table" ++ nl ++ "| 0 A100 c d e f g 10MiB / 40MiB | 5% |")%string.

(** An output of [df -h] that starts with an empty line, the header lost. *)
Definition df_output_after_empty_line : string :=
  (nl ++ "/dev/sda1 100G 91G 9G 91% /")%string.

(** The row of the specification's example. *)
Definition sda1_row : string := "/dev/sda1 100G 91G 9G 91% /".

(** One line of configuration that holds two aliases. *)
Definition two_aliases_on_one_line : string :=
  "alias a='ssh -P 22 alice@10.0.0.5'; alias b='ssh -P 2222 bob@10.0.0.6'".

(** The alias of the specification's example, under the name the
    specification gives to the command. *)
Definition remote_shell_alias : string := "remote-shell -P 22 alice@10.0.0.5".

(** A file that exists and holds no alias. *)
Definition zshrc_without_alias : string := "export PATH=/usr/local/bin:/usr/bin".

Definition alice : ServerTarget := mkTarget "10.0.0.5" "alice" 22.

Definition bob : ServerTarget := mkTarget "10.0.0.6" "bob" 2222.

Definition two_aliases : string :=
  ("alias gpu1='ssh -P 22 alice@10.0.0.5'" ++ nl ++
   "alias gpu2='ssh -P 2222 bob@10.0.0.6'" ++ nl)%string.

Definition df_output : string :=
  ("Filesystem      Size  Used Avail Use% Mounted on" ++ nl ++
   "/dev/sda1       100G   91G    9G  91% /" ++ nl)%string.

(** The output of [df -h] on a host that mounts a share whose name holds a
    space: the fifth field of that row is not the percentage. *)
Definition df_output_with_share : string :=
  ("Filesystem      Size  Used Avail Use% Mounted on" ++ nl ++
   "/dev/sda1       100G   91G    9G  91% /" ++ nl ++
   "//nas/my share  1.0T  100G  900G  10% /mnt/share" ++ nl)%string.

Definition no_host : Host :=
  mkHost (Some (SSHException "timed out")) (fun _ => Raise (SSHException "timed out")).

(** A host without the GPU tool: running it raises. *)
Definition host_without_gpu : Host :=
  mkHost None
    (fun command =>
       if String.eqb command "df -h" then Ret df_output
       else Raise (SSHException "Channel closed.")).

(** A host that accepts the connection and then fails on [df -h]. *)
Definition host_df_fails : Host :=
  mkHost None
    (fun command =>
       if String.eqb command "df -h" then Raise (SSHException "Channel closed.")
       else Ret EmptyString).

Definition host_with_share : Host :=
  mkHost None
    (fun command =>
       if String.eqb command "df -h" then Ret df_output_with_share
       else Raise (SSHException "Channel closed.")).

(** The first second of 2026. *)
Definition new_year : DateTime := mkDateTime 2026 1 1 0 0 0.

(** The style names that the program writes in its tags (red, yellow, green,
    dim, bold blue, bold green, bold yellow) are in normal form, and the
    program writes no handler tag: tables that leave every name as it is and
    evaluate every handler are those of the library on what the program and
    the hosts of the examples print. *)
Definition styles_of_the_program : Rich.Tables :=
  Rich.mkTables (fun style_name => style_name) (fun _ => None).

(** A world known by its configuration file alone: no host answers. *)
Definition world_of_zshrc (file : option string) : World :=
  mkWorld file "secret" (fun _ => new_year) (fun _ _ _ => no_host) styles_of_the_program.

(** A world of one kind of host. *)
Definition world_of_host (h : Host) : World :=
  mkWorld (Some two_aliases) "secret" (fun _ => new_year) (fun _ _ _ => h)
          styles_of_the_program.

(** Two targets: the first mounts the share, the second is an ordinary host. *)
Definition world_with_share : World :=
  mkWorld (Some two_aliases) "secret" (fun _ => new_year)
          (fun _ server _ =>
             if String.eqb (host server) "10.0.0.5" then host_with_share
             else host_without_gpu)
          styles_of_the_program.

(** A host without the GPU tool, as a shell sees it: the command is not
    found, which the shell writes on the error stream; nothing raises and
    the output is empty. *)
Definition host_gpu_tool_absent : Host :=
  mkHost None
    (fun command => if String.eqb command "df -h" then Ret df_output else Ret EmptyString).

(** A host on which [df -h] fails as a command does: it writes on the error
    stream and ends with a status that is not zero; nothing raises and the
    output is empty. *)
Definition host_df_exits_with_error : Host :=
  mkHost None (fun _ => Ret EmptyString).

(** A host that refuses the connection with a message in which a path
    stands between brackets. *)
Definition host_refusing_terminal : Host :=
  mkHost (Some (SSHException "[Errno 13] Permission denied: [/dev/pts/0]"))
         (fun _ => Raise (SSHException "SSH session not active")).

(** Two targets: the first refuses the connection with that message, the
    second is an ordinary host. *)
Definition world_with_bracketed_message : World :=
  mkWorld (Some two_aliases) "secret" (fun _ => new_year)
          (fun _ server _ =>
             if String.eqb (host server) "10.0.0.5" then host_refusing_terminal
             else host_without_gpu)
          styles_of_the_program.

(** ** The claims on discovery, as they are worded *)

(** One target for each line that matches. *)
Definition one_target_per_matching_line (content : string) : Prop :=
  exists targets st,
    read_zshrc_aliases (world_of_zshrc (Some content)) initial = Some (Ret targets, st) /\
    length targets = length (matching_lines content).

(** The caller of [read_zshrc_aliases] can tell the world [w1] from the
    world [w2] by what is returned to it. *)
Definition caller_tells_apart (w1 w2 : World) : Prop :=
  returned (read_zshrc_aliases w1 initial) <> returned (read_zshrc_aliases w2 initial).

(** The port of a match. *)
Definition port_digits (groups : list string) : string := nth 0 groups EmptyString.

(** No port of the configuration has more digits than [int] converts. *)
Definition ports_within_limit (content : string) : Prop :=
  Forall (fun groups => String.length (port_digits groups) <= int_max_str_digits)
         (Re.finditer ssh_pattern content).

(** ** The claims on one target, as they are worded *)

(** Lines 101 to 107 of [get_server_info]: the text that is parsed for the
    GPU records. *)
Definition read_gpu_info (ssh : SSHClient) : M string :=
  try_except (exec_command ssh "nvidia-smi") (fun _ => ret "No GPU information available").

(** The placeholder stands for the output of the GPU tool of the host. *)
Definition sentinel_substituted (h : Host) : Prop :=
  forall client st,
    returned (read_gpu_info (mkClient client (Some h)) st) =
    Some (Ret "No GPU information available").

(** [get_server_info] returns a failure. *)
Definition failure_returned (w : World) (server : ServerTarget) (password : string)
           (st : State) : Prop :=
  exists message st', get_server_info w server password st = Some (Ret (Failure message), st').

(** * Definitions for the further properties *)

(** ** Lines *)

(** The first line of a text. *)
Definition first_line (text : string) : string :=
  hd EmptyString (Str.split Str.newline text).

(** The lines of a text once the whitespace at its end is removed, beside
    the lines of the text: the same lines up to one, which loses the
    whitespace at its end; the lines after that one held whitespace only. *)
Inductive rstripped : list string -> list string -> Prop :=
| rstripped_last (x : string) (after : list string) :
    Forall (fun line => Str.all_chars Str.isspace line = true) after ->
    rstripped [Str.rstrip_by Str.isspace x] (x :: after)
| rstripped_cons (x : string) (lines' lines : list string) :
    rstripped lines' lines ->
    rstripped (x :: lines') (x :: lines).

(** A field: what [str.split] gives, a string that is not empty and holds
    no whitespace. *)
Definition field (f : string) : Prop :=
  f <> EmptyString /\ Str.all_chars (fun c => negb (Str.isspace c)) f = true.

(** ** Records made of fields *)

Definition gpu_fields (g : GpuRecord) : Prop :=
  field (gpu_id g) /\ field (name g) /\ field (memory_used g) /\
  field (memory_total g) /\ field (utilization g).

Definition storage_fields (d : StorageRecord) : Prop :=
  field (filesystem d) /\ field (size d) /\ field (used d) /\
  field (available d) /\ field (use_percent d) /\ field (mounted_on d).

(** A storage record written as a row: its six fields, a space between
    two. *)
Definition storage_line (d : StorageRecord) : string :=
  Str.join " " [filesystem d; size d; used d; available d; use_percent d; mounted_on d].

(** ** The cells of the tables *)

Definition gpu_cells (gpu : GpuRecord) : list string :=
  [gpu_id gpu; name gpu; memory_used gpu; memory_total gpu; utilization gpu].

(** A use_percent as [df] writes it: digits, no more of them than [int]
    converts, then percent signs. *)
Definition percentage (use_percent : string) : Prop :=
  exists digits signs,
    digits <> EmptyString /\ Str.all_chars is_digit digits = true /\
    String.length digits <= int_max_str_digits /\
    Str.all_chars (Ascii.eqb "%") signs = true /\
    use_percent = (digits ++ signs)%string.

(** The number that a use_percent writes. *)
Definition percent_value (disk : StorageRecord) : Z :=
  decimal (Str.rstrip_by (Ascii.eqb "%") (use_percent disk)).

Definition storage_cells (disk : StorageRecord) : list string :=
  let style := percent_style (percent_value disk) in
  [filesystem disk; size disk; used disk; available disk;
   ("[" ++ style ++ "]" ++ use_percent disk ++ "[/" ++ style ++ "]")%string;
   mounted_on disk].

Definition server_panel (server : ServerTarget) : Renderable :=
  Panel ("[bold blue]Server: " ++ host server ++ "[/bold blue]").

(** What [display_server_info] prints under the panel of the server. *)
Definition shown_for (info : FetchResult) : list Renderable :=
  match info with
  | Failure error => [Markup ("[red]Error: " ++ error ++ "[/red]")%string]
  | Success gpu_info storage_info =>
      [Markup (nl ++ "[bold green]GPU Information:[/bold green]")%string;
       match gpu_info with
       | _ :: _ => Grid (create_gpu_table gpu_info)
       | [] => Markup "[yellow]No GPU information available[/yellow]"
       end;
       Markup (nl ++ "[bold green]Storage Information:[/bold green]")%string] ++
      match create_storage_table storage_info with
      | Ret table => [Grid table; Markup (nl ++ repeat_string "=" 80 ++ nl)%string]
      | Raise _ => []
      end
  end.

(** ** What the console accepts *)

(** The console prints [r]: rendering it raises nothing. *)
Definition accepted (w : World) (r : Renderable) : Prop := render_error (rich w) r = Ret tt.

(** What the console shows of renderables printed in turn: those that stand
    before the first that cannot be rendered. *)
Fixpoint shown (t : Rich.Tables) (rs : list Renderable) : list Renderable :=
  match rs with
  | [] => []
  | r :: rs' =>
      match render_error t r with
      | Ret _ => r :: shown t rs'
      | Raise _ => []
      end
  end.

(** Rendering the result of a target raises nothing: the console accepts
    what is printed of it, and the storage table can be built. *)
Definition renders (w : World) (server : ServerTarget) (info : FetchResult) : Prop :=
  Forall (accepted w) (server_panel server :: shown_for info) /\
  match info with
  | Failure _ => True
  | Success _ storage_info => exists table, create_storage_table storage_info = Ret table
  end.

(** A text that holds no markup: no backslash, and no opening bracket that a
    character which starts a tag follows (a small letter, [#], [/] or
    [@]).  The messages of the operating system, as
    [[Errno 111] Connection refused], are such texts. *)
Fixpoint literal_text (s : string) : bool :=
  match s with
  | EmptyString => true
  | String c s' =>
      negb (Ascii.eqb c backslash) &&
      (if Ascii.eqb c "[" then
         match s' with
         | String d _ => negb (Rich.tag_start d)
         | EmptyString => true
         end
       else true) &&
      literal_text s'
  end.

(** A tag name as the program writes them. *)
Definition style_name (T : string) : bool :=
  match T with
  | String c _ =>
      Rich.tag_start c && negb (Ascii.eqb c "/") &&
      negb (contains "[" T) && negb (contains "]" T) && negb (contains "=" T) &&
      String.eqb (Str.strip T) T
  | EmptyString => false
  end.

(** Texts under tags, one after the other: each [(before, T, text)] is
    [before], then [text] between the tags [[T]] and [[/T]]; [last] ends
    the whole. *)
Fixpoint wrapped (segments : list (string * string * string)) (last : string) : string :=
  match segments with
  | [] => last
  | (before, T, text) :: segments' =>
      (before ++ "[" ++ T ++ "]" ++ text ++ "[/" ++ T ++ "]" ++ wrapped segments' last)%string
  end.

(** A character that is neither a backslash nor an opening bracket. *)
Definition no_markup (c : ascii) : bool :=
  negb (Ascii.eqb c backslash) && negb (Ascii.eqb c "[").

(** A character of a tag name: no bracket. *)
Definition no_bracket (c : ascii) : bool := negb (Ascii.eqb c "[") && negb (Ascii.eqb c "]").

(** The loop of [Rich.render] over the matches of the pattern of the tags. *)
Definition render_matches (t : Rich.Tables) (matches : list (nat * nat * string))
           (style_stack : list Rich.Tag) : result (list Rich.Tag) :=
  for_each
    (flat_map
       (fun '(start, escapes, text) =>
          if Nat.odd escapes then []
          else let '(name, params) := Rich.partition "=" text in
               [(start + escapes, Rich.mkTag name params)])
       matches)
    (fun '(position, tag) style_stack => Rich.render_tag t position tag style_stack)
    style_stack.

(** A text without markup under a tag of the program, after a text without
    markup. *)
Definition segment_ok (segment : string * string * string) : Prop :=
  let '(before, T, text) := segment in
  literal_text before = true /\ style_name T = true /\ literal_text text = true.

(** A result whose texts hold no markup and whose percentages are
    percentages. *)
Definition displayable (info : FetchResult) : Prop :=
  match info with
  | Failure error => literal_text error = true
  | Success gpu_info storage_info =>
      Forall (fun gpu => Forall (fun cell => literal_text cell = true) (gpu_cells gpu))
             gpu_info /\
      Forall (fun disk =>
                percentage (use_percent disk) /\
                Forall (fun cell => literal_text cell = true)
                       [filesystem disk; size disk; used disk; available disk;
                        mounted_on disk])
             storage_info
  end.

(** ** A pass of main, target after target *)

(** The state in which the first pass of [main] meets its targets: the
    password was asked, the console cleared and the two headers printed. *)
Definition pass_start (w : World) (servers : list ServerTarget) (st : State) : State :=
  mkState
    (console st ++
     [Prompted "Enter server password: "; Cleared;
      Printed (Panel ("[bold yellow]Server Monitoring Dashboard[/bold yellow]" ++ nl ++
                      "[dim]Last updated: " ++ strftime (clock w (clock_reads st)) ++
                      "[/dim]")%string);
      Printed (Markup ("Monitoring " ++ str_of_nat (length servers) ++
                       " servers..." ++ nl)%string)])
    (ssh_log st) (clients st) (S (clock_reads st)) (fetched st).

(** The results of the targets when the clients are numbered from
    [client]. *)
Fixpoint results_from (w : World) (password : string) (client : nat)
         (servers : list ServerTarget) : list (ServerTarget * FetchResult) :=
  match servers with
  | [] => []
  | server :: servers' =>
      (server, fetch_result (network w client server password)) ::
      results_from w password (S client) servers'
  end.

(** The sessions of the targets, one after the other. *)
Fixpoint sessions_from (w : World) (password : string) (client : nat)
         (servers : list ServerTarget) : list SshEvent :=
  match servers with
  | [] => []
  | server :: servers' =>
      session_events client server (network w client server password) ++
      sessions_from w password (S client) servers'
  end.

(** ** The sessions left open *)





(** ** The end of a match *)

(** What follows a host in its line: nothing, or a character that is
    neither a digit nor a dot. *)
Definition ends_host (after : string) : Prop :=
  match after with
  | EmptyString => True
  | String c _ => Re.digit_or_dot c = false
  end.

(** * Properties *)

(** ** Stripping *)

Section StripFacts.

Variable p : ascii -> bool.

Lemma rstrip_by_cons c s :
  Str.rstrip_by p (String c s) =
  match Str.rstrip_by p s with
  | EmptyString => if p c then EmptyString else String c EmptyString
  | r => String c r
  end.
Proof. reflexivity. Qed.

Lemma lstrip_by_idem s : Str.lstrip_by p (Str.lstrip_by p s) = Str.lstrip_by p s.
Proof.
  induction s as [|c s IH]; simpl; [reflexivity|].
  destruct (p c) eqn:E; [exact IH|].
  simpl. now rewrite E.
Qed.

Lemma rstrip_by_idem s : Str.rstrip_by p (Str.rstrip_by p s) = Str.rstrip_by p s.
Proof.
  induction s as [|c s IH]; [reflexivity|].
  rewrite rstrip_by_cons.
  destruct (Str.rstrip_by p s) as [|c' r] eqn:E.
  - destruct (p c) eqn:Pc; [reflexivity|].
    simpl. now rewrite Pc.
  - rewrite rstrip_by_cons, IH. reflexivity.
Qed.

(** A string that ends where [rstrip] would end it has tails that do too. *)
Lemma rstrip_by_tail c s :
  Str.rstrip_by p (String c s) = String c s -> Str.rstrip_by p s = s.
Proof.
  rewrite rstrip_by_cons.
  destruct (Str.rstrip_by p s) as [|c' r] eqn:E.
  - destruct (p c); intros H; [discriminate|].
    now injection H as <-.
  - intros H. now injection H.
Qed.

Lemma rstrip_by_lstrip_fixed q s :
  Str.rstrip_by p s = s -> Str.rstrip_by p (Str.lstrip_by q s) = Str.lstrip_by q s.
Proof.
  induction s as [|c s IH]; intros H; [reflexivity|].
  simpl. destruct (q c); [|exact H].
  apply IH. eapply rstrip_by_tail; eassumption.
Qed.

Lemma lstrip_by_all w s :
  Str.all_chars p w = true -> Str.lstrip_by p (w ++ s) = Str.lstrip_by p s.
Proof.
  induction w as [|c w IH]; simpl; [reflexivity|].
  intros H. apply andb_true_iff in H as [Hc Hw].
  rewrite Hc. auto.
Qed.

Lemma rstrip_by_all w : Str.all_chars p w = true -> Str.rstrip_by p w = EmptyString.
Proof.
  induction w as [|c w IH]; simpl; [reflexivity|].
  intros H. apply andb_true_iff in H as [Hc Hw].
  now rewrite (IH Hw), Hc.
Qed.

Lemma rstrip_by_app_all s w :
  Str.all_chars p w = true -> Str.rstrip_by p (s ++ w) = Str.rstrip_by p s.
Proof.
  intros Hw. induction s as [|c s IH]; simpl.
  - now apply rstrip_by_all.
  - now rewrite IH.
Qed.

Lemma rstrip_by_all_app w s :
  Str.all_chars p w = true ->
  Str.rstrip_by p (w ++ s) =
  match Str.rstrip_by p s with
  | EmptyString => EmptyString
  | r => (w ++ r)%string
  end.
Proof.
  induction w as [|c w IH]; simpl.
  - intros _. now destruct (Str.rstrip_by p s).
  - intros H. apply andb_true_iff in H as [Hc Hw].
    rewrite (IH Hw).
    destruct (Str.rstrip_by p s) as [|c' r]; [now rewrite Hc|].
    now destruct w.
Qed.

End StripFacts.

Lemma strip_idem s : Str.strip (Str.strip s) = Str.strip s.
Proof.
  unfold Str.strip.
  rewrite rstrip_by_lstrip_fixed by apply rstrip_by_idem.
  apply lstrip_by_idem.
Qed.

(** Whitespace around a text does not change what [strip] gives. *)
Lemma strip_padded w s w' :
  Str.all_chars Str.isspace w = true ->
  Str.all_chars Str.isspace w' = true ->
  Str.strip (w ++ s ++ w') = Str.strip s.
Proof.
  intros Hw Hw'. unfold Str.strip.
  rewrite rstrip_by_all_app by assumption.
  rewrite rstrip_by_app_all by assumption.
  destruct (Str.rstrip_by Str.isspace s) as [|c r] eqn:E; [reflexivity|].
  now apply lstrip_by_all.
Qed.

(** ** The loops of the parsers *)

Lemma getitem_nth {A} (xs : list A) i d : i < length xs -> getitem xs i = Ret (nth i xs d).
Proof.
  intros H. unfold getitem.
  now rewrite (nth_error_nth' xs d H).
Qed.

Lemma for_each_appends_in {A R} (f : A -> list R) (body : A -> list R -> result (list R)) xs :
  (forall x, In x xs -> forall acc, body x acc = Ret (acc ++ f x)) ->
  forall acc, for_each xs body acc = Ret (acc ++ flat_map f xs).
Proof.
  induction xs as [|x xs IH]; intros Hbody acc; simpl.
  - now rewrite app_nil_r.
  - rewrite Hbody by now left.
    rewrite IH by (intros y Hy; apply Hbody; now right).
    now rewrite app_assoc.
Qed.

Lemma for_each_appends {A R} (f : A -> list R) (body : A -> list R -> result (list R)) :
  (forall x acc, body x acc = Ret (acc ++ f x)) ->
  forall xs acc, for_each xs body acc = Ret (acc ++ flat_map f xs).
Proof.
  intros Hbody xs. apply for_each_appends_in. intros x _. apply Hbody.
Qed.

Lemma parse_gpu_info_eq gpu_info :
  parse_gpu_info gpu_info = Ret (gpu_table (Str.strip gpu_info)).
Proof.
  unfold parse_gpu_info, gpu_table, table_of, records_of.
  rewrite for_each_appends with
    (f := fun line => if blank line then []
                      else match gpu_row line with Some r => [r] | None => [] end);
    [reflexivity|].
  intros line gpus. unfold blank, gpu_row.
  destruct (Str.is_empty (Str.strip line)); [now rewrite app_nil_r|].
  destruct (13 <=? length (Str.split_ws line)) eqn:E; [|now rewrite app_nil_r].
  apply Nat.leb_le in E.
  rewrite !(getitem_nth _ _ EmptyString) by lia.
  reflexivity.
Qed.

Lemma parse_storage_info_eq storage_info :
  parse_storage_info storage_info = Ret (storage_table (Str.strip storage_info)).
Proof.
  unfold parse_storage_info, storage_table, table_of, records_of.
  rewrite for_each_appends with
    (f := fun line => if blank line then []
                      else match storage_row line with Some r => [r] | None => [] end);
    [reflexivity|].
  intros line storage. unfold blank, storage_row.
  destruct (Str.is_empty (Str.strip line)); [now rewrite app_nil_r|].
  destruct (6 <=? length (Str.split_ws line)) eqn:E; [|now rewrite app_nil_r].
  apply Nat.leb_le in E.
  rewrite !(getitem_nth _ _ EmptyString) by lia.
  reflexivity.
Qed.

(** ** C3, C4, C10: the two parsers *)

Lemma gpu_row_fields line r :
  gpu_row line = Some r ->
  let fields := Str.split_ws line in
  13 <= length fields /\
  nth_error fields 1 = Some (gpu_id r) /\
  nth_error fields 2 = Some (name r) /\
  nth_error fields 8 = Some (memory_used r) /\
  nth_error fields 10 = Some (memory_total r) /\
  nth_error fields 12 = Some (utilization r).
Proof.
  unfold gpu_row. cbv zeta.
  destruct (13 <=? length (Str.split_ws line)) eqn:E; [|discriminate].
  apply Nat.leb_le in E. intros H. injection H as <-.
  cbn [gpu_id name memory_used memory_total utilization].
  repeat split; try assumption; apply nth_error_nth'; lia.
Qed.

Lemma storage_row_fields line r :
  storage_row line = Some r ->
  let fields := Str.split_ws line in
  6 <= length fields /\
  nth_error fields 0 = Some (filesystem r) /\
  nth_error fields 1 = Some (size r) /\
  nth_error fields 2 = Some (used r) /\
  nth_error fields 3 = Some (available r) /\
  nth_error fields 4 = Some (use_percent r) /\
  nth_error fields 5 = Some (mounted_on r).
Proof.
  unfold storage_row. cbv zeta.
  destruct (6 <=? length (Str.split_ws line)) eqn:E; [|discriminate].
  apply Nat.leb_le in E. intros H. injection H as <-.
  cbn [filesystem size used available use_percent mounted_on].
  repeat split; try assumption; apply nth_error_nth'; lia.
Qed.

Lemma gpu_row_none line : gpu_row line = None <-> length (Str.split_ws line) < 13.
Proof.
  unfold gpu_row.
  destruct (13 <=? length (Str.split_ws line)) eqn:E.
  - apply Nat.leb_le in E. split; [discriminate | lia].
  - apply Nat.leb_gt in E. tauto.
Qed.

Lemma storage_row_none line : storage_row line = None <-> length (Str.split_ws line) < 6.
Proof.
  unfold storage_row.
  destruct (6 <=? length (Str.split_ws line)) eqn:E.
  - apply Nat.leb_le in E. split; [discriminate | lia].
  - apply Nat.leb_gt in E. tauto.
Qed.

(** C3, as the claim words it, fails: on an output whose first line is empty,
    discarding the first two lines of the input leaves the row of 13 fields
    and so one record, but [parse_gpu_info] strips the input first, discards
    the header and the row, and returns no record. *)
Lemma parse_gpu_info_after_empty_line :
  parse_gpu_info gpu_output_after_empty_line = Ret [] /\
  gpu_table gpu_output_after_empty_line = [mkGpu "0" "A100" "10MiB" "40MiB" "5%"] /\
  parse_gpu_info gpu_output_after_empty_line <> Ret (gpu_table gpu_output_after_empty_line).
Proof.
  repeat split; try (vm_compute; reflexivity).
  vm_compute. discriminate.
Qed.

(** C3 (amended): for every input, [parse_gpu_info] raises nothing and returns
    the table of the input with the whitespace at its two ends removed: of
    that text it discards the first two lines, and of the others each line
    that is not blank and splits on whitespace into at least 13 fields gives
    one record, in the order of the lines, made of the fields 1 (id), 2
    (name), 8 (memory_used), 10 (memory_total) and 12 (utilization); a line
    of fewer than 13 fields gives no record. *)
Theorem parse_gpu_info_table :
  (forall gpu_info,
     parse_gpu_info gpu_info =
     Ret (records_of gpu_row (skipn 2 (Str.split Str.newline (Str.strip gpu_info))))) /\
  (forall line, gpu_row line = None <-> length (Str.split_ws line) < 13) /\
  (forall line r,
     gpu_row line = Some r ->
     let fields := Str.split_ws line in
     13 <= length fields /\
     nth_error fields 1 = Some (gpu_id r) /\
     nth_error fields 2 = Some (name r) /\
     nth_error fields 8 = Some (memory_used r) /\
     nth_error fields 10 = Some (memory_total r) /\
     nth_error fields 12 = Some (utilization r)).
Proof.
  split; [exact parse_gpu_info_eq|].
  split; [exact gpu_row_none | exact gpu_row_fields].
Qed.

(** C4, as the claim words it, fails: on an output whose first line is empty,
    discarding the first line of the input leaves the row and so one record,
    but [parse_storage_info] strips the input first, discards the row as the
    header, and returns no record. *)
Lemma parse_storage_info_after_empty_line :
  parse_storage_info df_output_after_empty_line = Ret [] /\
  storage_table df_output_after_empty_line =
    [mkStorage "/dev/sda1" "100G" "91G" "9G" "91%" "/"] /\
  parse_storage_info df_output_after_empty_line <>
    Ret (storage_table df_output_after_empty_line).
Proof.
  repeat split; try (vm_compute; reflexivity).
  vm_compute. discriminate.
Qed.

Section SplitFacts.

Variable p : ascii -> bool.

Lemma lstrip_by_empty_all h :
  Str.lstrip_by p h = EmptyString -> Str.all_chars p h = true.
Proof.
  induction h as [|c h IH]; simpl; [reflexivity|].
  destruct (p c); [exact IH | discriminate].
Qed.

Lemma lstrip_by_app h x :
  Str.lstrip_by p h <> EmptyString ->
  Str.lstrip_by p (h ++ x) = (Str.lstrip_by p h ++ x)%string.
Proof.
  induction h as [|c h IH]; simpl; [congruence|].
  destruct (p c); [exact IH | reflexivity].
Qed.

Lemma rstrip_by_app_fixed s x :
  Str.rstrip_by p x = x -> x <> EmptyString ->
  Str.rstrip_by p (s ++ x) = (s ++ x)%string.
Proof.
  intros Hx Hne. induction s as [|c s IH]; [exact Hx|].
  cbn [append]. rewrite rstrip_by_cons, IH.
  destruct (s ++ x)%string eqn:E; [|reflexivity].
  destruct s; [now subst | discriminate].
Qed.

Lemma all_chars_lstrip_by q h :
  Str.all_chars q h = true -> Str.all_chars q (Str.lstrip_by p h) = true.
Proof.
  induction h as [|c h IH]; simpl; [reflexivity|].
  intros H. destruct (p c); [|exact H].
  apply andb_true_iff in H as [_ H]. auto.
Qed.

End SplitFacts.

Lemma split_line sep h x :
  Str.all_chars (differs_from sep) h = true ->
  Str.split sep (h ++ String sep x) = h :: Str.split sep x.
Proof.
  induction h as [|c h IH]; simpl.
  - intros _. now rewrite Ascii.eqb_refl.
  - intros H. apply andb_true_iff in H as [Hc Hh].
    unfold differs_from in Hc. apply negb_true_iff in Hc.
    now rewrite Hc, (IH Hh).
Qed.

Lemma df_header_and_row header :
  blank header = false ->
  Str.all_chars (differs_from Str.newline) header = true ->
  storage_table (Str.strip (header ++ nl ++ sda1_row)) =
  [mkStorage "/dev/sda1" "100G" "91G" "9G" "91%" "/"].
Proof.
  intros Hblank Hline.
  assert (Hh : Str.lstrip_by Str.isspace header <> EmptyString).
  { intros E. apply lstrip_by_empty_all in E.
    unfold blank, Str.strip in Hblank.
    now rewrite (rstrip_by_all _ _ E) in Hblank. }
  unfold Str.strip.
  rewrite rstrip_by_app_fixed; [|reflexivity|discriminate].
  rewrite lstrip_by_app by assumption.
  unfold storage_table, table_of. cbn [nl append].
  rewrite split_line by now apply all_chars_lstrip_by.
  reflexivity.
Qed.

(** C4 (amended): for every input, [parse_storage_info] raises nothing and
    returns the table of the input with the whitespace at its two ends
    removed: of that text it discards the first line, and of the others each
    line that is not blank and splits on whitespace into at least 6 fields
    gives one record, in the order of the lines, made of the fields 0
    (filesystem), 1 (size), 2 (used), 3 (available), 4 (use_percent) and 5
    (mounted_on); a line of fewer than 6 fields gives no record.  In
    particular a header line that is not blank followed by the row
    [/dev/sda1 100G 91G 9G 91% /] gives the one record of that row, whose
    use_percent is [91%]. *)
Theorem parse_storage_info_table :
  (forall storage_info,
     parse_storage_info storage_info =
     Ret (records_of storage_row
            (skipn 1 (Str.split Str.newline (Str.strip storage_info))))) /\
  (forall line, storage_row line = None <-> length (Str.split_ws line) < 6) /\
  (forall line r,
     storage_row line = Some r ->
     let fields := Str.split_ws line in
     6 <= length fields /\
     nth_error fields 0 = Some (filesystem r) /\
     nth_error fields 1 = Some (size r) /\
     nth_error fields 2 = Some (used r) /\
     nth_error fields 3 = Some (available r) /\
     nth_error fields 4 = Some (use_percent r) /\
     nth_error fields 5 = Some (mounted_on r)) /\
  (forall header,
     blank header = false ->
     Str.all_chars (differs_from Str.newline) header = true ->
     parse_storage_info (header ++ nl ++ "/dev/sda1 100G 91G 9G 91% /") =
     Ret [mkStorage "/dev/sda1" "100G" "91G" "9G" "91%" "/"]).
Proof.
  split; [exact parse_storage_info_eq|].
  split; [exact storage_row_none|].
  split; [exact storage_row_fields|].
  intros header Hblank Hline.
  rewrite parse_storage_info_eq.
  f_equal. now apply df_header_and_row.
Qed.

(** C10: the two parsers do not see the whitespace around their input: for
    every input [s], [parse_gpu_info s] is [parse_gpu_info] of [s] stripped,
    and so for [parse_storage_info]; hence whitespace put before and after
    an input, blank lines among it, changes neither result, and blank lines
    that lead the output are not counted among the header lines. *)
Theorem parsers_ignore_surrounding_whitespace :
  (forall s, parse_gpu_info s = parse_gpu_info (Str.strip s)) /\
  (forall s, parse_storage_info s = parse_storage_info (Str.strip s)) /\
  (forall w s w',
     Str.all_chars Str.isspace w = true ->
     Str.all_chars Str.isspace w' = true ->
     parse_gpu_info (w ++ s ++ w') = parse_gpu_info s /\
     parse_storage_info (w ++ s ++ w') = parse_storage_info s).
Proof.
  split; [|split].
  - intros s. now rewrite !parse_gpu_info_eq, strip_idem.
  - intros s. now rewrite !parse_storage_info_eq, strip_idem.
  - intros w s w' Hw Hw'.
    rewrite !parse_gpu_info_eq, !parse_storage_info_eq.
    now rewrite strip_padded.
Qed.

(** ** Regular expressions *)

Lemma length_append s t : String.length (s ++ t) = String.length s + String.length t.
Proof. induction s as [|c s IH]; simpl; [reflexivity | now rewrite IH]. Qed.

Lemma append_assoc s t u : ((s ++ t) ++ u)%string = (s ++ (t ++ u))%string.
Proof. induction s as [|c s IH]; simpl; [reflexivity | now rewrite IH]. Qed.

Lemma append_empty_r s : (s ++ EmptyString)%string = s.
Proof. induction s as [|c s IH]; simpl; [reflexivity | now rewrite IH]. Qed.

Lemma match_here_empty p : p <> [] -> Re.match_here p EmptyString = None.
Proof. destruct p as [|[c|cls] p]; [congruence | reflexivity | reflexivity]. Qed.

(** A match takes at least one character of each of its groups. *)
Lemma plus_sound {R} cls (k : string -> string -> option R) s :
  forall taken r,
    Re.plus cls k taken s = Some r ->
    exists g rest,
      g <> EmptyString /\ Str.all_chars cls g = true /\
      s = (g ++ rest)%string /\ k (taken ++ g)%string rest = Some r.
Proof.
  induction s as [|a s IH]; intros taken r; simpl; [discriminate|].
  destruct (cls a) eqn:Ha; [|discriminate].
  destruct (Re.plus cls k (taken ++ String a EmptyString) s) as [r'|] eqn:E.
  - intros H. injection H as ->.
    destruct (IH _ _ E) as (g & rest & _ & Hg & -> & Hk).
    exists (String a g), rest. rewrite append_assoc in Hk.
    repeat split; [discriminate | simpl; now rewrite Ha | exact Hk].
  - intros Hk. exists (String a EmptyString), s.
    repeat split; [discriminate | simpl; now rewrite Ha | exact Hk].
Qed.

Section EndOfLine.

Variable c : ascii.
Variable tail : string.

Lemma plus_followed_by cls (k1 k2 : string -> string -> option (list string * string)) :
  cls c = false ->
  (forall g y, k2 g (y ++ String c tail)%string = followed_by (String c tail) (k1 g y)) ->
  forall x taken,
    Re.plus cls k2 taken (x ++ String c tail) =
    followed_by (String c tail) (Re.plus cls k1 taken x).
Proof.
  intros Hc Hk. induction x as [|a x IH]; intros taken; simpl.
  - now rewrite Hc.
  - destruct (cls a); [|reflexivity].
    rewrite IH, Hk.
    now destruct (Re.plus cls k1 _ x) as [[gs r]|].
Qed.

(** A pattern none of whose items takes [c] matches before [c] as it does
    before the end of the text. *)
Lemma match_here_followed_by p :
  forallb (avoids c) p = true ->
  forall x,
    Re.match_here p (x ++ String c tail) =
    followed_by (String c tail) (Re.match_here p x).
Proof.
  induction p as [|it p IH]; intros Hp x; [reflexivity|].
  cbn [forallb] in Hp. apply andb_true_iff in Hp as [Hit Hp].
  specialize (IH Hp).
  destruct it as [c'|cls]; cbn [avoids] in Hit; apply negb_true_iff in Hit.
  - destruct x as [|a x]; simpl.
    + now rewrite Hit.
    + destruct (Ascii.eqb c' a); [apply IH | reflexivity].
  - cbn [Re.match_here]. apply plus_followed_by; [exact Hit|].
    intros g y. rewrite IH.
    now destruct (Re.match_here p y) as [[gs r]|].
Qed.

Lemma match_here_at_end_of_line p :
  p <> [] -> forallb (avoids c) p = true -> Re.match_here p (String c tail) = None.
Proof.
  intros Hne Hp.
  change (String c tail) with (EmptyString ++ String c tail)%string.
  now rewrite match_here_followed_by, match_here_empty.
Qed.

(** The search does not see the end of a line: the matches of a line
    followed by more text are those of the line, then those of the text. *)
Lemma scan_followed_by p :
  p <> [] -> forallb (avoids c) p = true ->
  forall x k,
    k <= String.length x ->
    Re.scan p k (x ++ String c tail) = Re.scan p k x ++ Re.scan p 0 tail.
Proof.
  intros Hne Hp. induction x as [|a x IH]; intros k Hk.
  - simpl in Hk. replace k with 0 by lia.
    cbn [append Re.scan].
    now rewrite match_here_at_end_of_line, match_here_empty.
  - destruct k as [|k].
    + cbn [append Re.scan].
      change (String a (x ++ String c tail)) with (String a x ++ String c tail)%string.
      rewrite match_here_followed_by by assumption.
      destruct (Re.match_here p (String a x)) as [[gs r]|]; cbn [followed_by].
      * rewrite !length_append. cbn [app String.length].
        f_equal.
        replace (S (String.length x) + S (String.length tail)
                 - (String.length r + S (String.length tail)) - 1)
          with (S (String.length x) - String.length r - 1) by lia.
        apply IH. lia.
      * apply IH. lia.
    + cbn [append Re.scan]. apply IH. simpl in Hk. lia.
Qed.

End EndOfLine.

Lemma split_not_nil sep s : Str.split sep s <> [].
Proof.
  destruct s as [|a s]; simpl; [discriminate|].
  destruct (Ascii.eqb a sep); [discriminate|].
  destruct (Str.split sep s); discriminate.
Qed.

Lemma join_split sep s : Str.join sep (Str.split sep s) = s.
Proof.
  induction s as [|a s IH]; [reflexivity|].
  cbn [Str.split].
  destruct (Ascii.eqb_spec a sep) as [->|Hne];
    destruct (Str.split sep s) as [|l ls] eqn:E;
    try (now apply split_not_nil in E).
  - change (Str.join sep (EmptyString :: l :: ls))
      with (String sep (Str.join sep (l :: ls))).
    now rewrite IH.
  - destruct ls as [|l' ls].
    + cbn [Str.join] in *. now rewrite IH.
    + change (Str.join sep (String a l :: l' :: ls))
        with (String a (Str.join sep (l :: l' :: ls))).
      now rewrite IH.
Qed.

Lemma finditer_join p sep ls :
  p <> [] -> forallb (avoids sep) p = true ->
  Re.finditer p (Str.join sep ls) = flat_map (Re.finditer p) ls.
Proof.
  intros Hne Hp. unfold Re.finditer.
  induction ls as [|l ls IH].
  - simpl. now rewrite match_here_empty.
  - destruct ls as [|l' ls].
    + simpl. now rewrite app_nil_r.
    + change (Str.join sep (l :: l' :: ls))
        with (l ++ String sep (Str.join sep (l' :: ls)))%string.
      rewrite scan_followed_by by (assumption || lia).
      now rewrite IH.
Qed.

(** The matches of a text are those of its lines, line after line. *)
Lemma finditer_by_line p text :
  p <> [] -> forallb (avoids Str.newline) p = true ->
  Re.finditer p text = flat_map (Re.finditer p) (Str.split Str.newline text).
Proof.
  intros Hne Hp.
  rewrite <- (join_split Str.newline text) at 1.
  now apply finditer_join.
Qed.

(** ** The pattern of the aliases *)

Lemma ssh_pattern_not_nil : ssh_pattern <> [].
Proof. discriminate. Qed.

Lemma ssh_pattern_avoids_newline : forallb (avoids Str.newline) ssh_pattern = true.
Proof. reflexivity. Qed.

(** A match of the pattern: the text [ssh -P], a port of digits, the user,
    an [@] and the host. *)
Lemma ssh_match_groups t groups rest :
  Re.match_here ssh_pattern t = Some (groups, rest) ->
  exists port user host,
    groups = [port; user; host] /\
    port <> EmptyString /\ Str.all_chars is_digit port = true /\
    user <> EmptyString /\ Str.all_chars Re.word user = true /\
    host <> EmptyString /\ Str.all_chars Re.digit_or_dot host = true /\
    t = ("ssh -P " ++ port ++ " " ++ user ++ "@" ++ host ++ rest)%string.
Proof.
  unfold ssh_pattern. cbn [Re.lits app Re.match_here].
  do 7 (destruct t as [|? t]; [discriminate|];
        match goal with
        | |- (if Ascii.eqb ?x ?y then _ else _) = _ -> _ =>
            destruct (Ascii.eqb_spec x y) as [<-|]; [|discriminate]
        end).
  intros H.
  apply plus_sound in H as (port & t1 & Hport & Dport & -> & H).
  destruct t1 as [|? t1]; [discriminate|].
  destruct (Ascii.eqb_spec " " a) as [<-|]; [|discriminate].
  destruct (Re.plus _ _ _ t1) as [[gs r]|] eqn:E; [|discriminate].
  injection H as <- <-.
  apply plus_sound in E as (user & t2 & Huser & Duser & -> & H).
  destruct t2 as [|? t2]; [discriminate|].
  destruct (Ascii.eqb_spec "@" a) as [<-|]; [|discriminate].
  destruct (Re.plus _ _ _ t2) as [[gs' r']|] eqn:E; [|discriminate].
  injection H as <- <-.
  apply plus_sound in E as (host & t3 & Hhost & Dhost & -> & H).
  injection H as <- <-.
  exists port, user, host. cbn [append].
  repeat split; assumption.
Qed.

(** What the search returns are matches, each of a place of the text. *)
Lemma scan_occurrences p s :
  forall k groups,
    In groups (Re.scan p k s) ->
    exists before t rest,
      s = (before ++ t)%string /\ Re.match_here p t = Some (groups, rest).
Proof.
  induction s as [|a s IH]; intros k groups; destruct k as [|k]; cbn [Re.scan].
  - destruct (Re.match_here p EmptyString) as [[gs r]|] eqn:E; simpl; [|tauto].
    intros [->|[]]. exists EmptyString, EmptyString, r. auto.
  - simpl. tauto.
  - assert (Hs : forall k', In groups (Re.scan p k' s) ->
                 exists before t rest,
                   String a s = (before ++ t)%string /\
                   Re.match_here p t = Some (groups, rest)).
    { intros k' H. destruct (IH _ _ H) as (before & t & rest & -> & Hm).
      exists (String a before), t, rest. auto. }
    destruct (Re.match_here p (String a s)) as [[gs r]|] eqn:E.
    + intros [->|H]; [|eauto].
      exists EmptyString, (String a s), r. auto.
    + eauto.
  - intros H. destruct (IH _ _ H) as (before & t & rest & -> & Hm).
    exists (String a before), t, rest. auto.
Qed.

(** ** Ports *)

Lemma digit_not_space c : is_digit c = true -> int_space c = false.
Proof. destruct c as [[] [] [] [] [] [] [] []]; vm_compute; congruence. Qed.

Lemma rstrip_by_none p s :
  Str.all_chars (fun c => negb (p c)) s = true -> Str.rstrip_by p s = s.
Proof.
  induction s as [|c s IH]; [reflexivity|].
  cbn [Str.all_chars]. intros H. apply andb_true_iff in H as [Hc Hs].
  rewrite rstrip_by_cons, (IH Hs).
  apply negb_true_iff in Hc. rewrite Hc. now destruct s.
Qed.

Lemma all_chars_weaken (p q : ascii -> bool) s :
  (forall c, p c = true -> q c = true) ->
  Str.all_chars p s = true -> Str.all_chars q s = true.
Proof.
  intros Hpq. induction s as [|c s IH]; simpl; [reflexivity|].
  intros H. apply andb_true_iff in H as [Hc Hs].
  now rewrite (Hpq _ Hc), IH.
Qed.

Lemma lstrip_digits c s :
  is_digit c = true -> Str.lstrip_by int_space (String c s) = String c s.
Proof. intros Hc. cbn [Str.lstrip_by]. now rewrite (digit_not_space _ Hc). Qed.

Lemma scan_digits_digits s :
  forall acc digits,
    Str.all_chars is_digit s = true ->
    scan_digits acc digits true s =
    Some (decimal_from acc s, digits + String.length s, EmptyString).
Proof.
  induction s as [|c s IH]; intros acc digits; cbn [Str.all_chars scan_digits String.length].
  - intros _. now rewrite Nat.add_0_r.
  - intros H. apply andb_true_iff in H as [Hc Hs].
    rewrite Hc, (IH _ _ Hs). cbn [decimal_from].
    now replace (S digits + String.length s) with (digits + S (String.length s)) by lia.
Qed.

Lemma not_sign c s :
  is_digit c = true ->
  match String c s with
  | String "-" r => (true, r)
  | String "+" r => (false, r)
  | _ => (false, String c s)
  end = (false, String c s).
Proof. intros Hc. destruct c as [[] [] [] [] [] [] [] []]; try reflexivity; discriminate Hc. Qed.

(** What [int] scans of a string of digits. *)
Lemma int_digits c s :
  Str.all_chars is_digit (String c s) = true ->
  int (String c s) =
  if int_max_str_digits <? String.length (String c s) then
    Raise (ValueError
             ("Exceeds the limit (" ++ str_of_nat int_max_str_digits ++
              " digits) for integer string conversion: value has " ++
              str_of_nat (String.length (String c s)) ++
              " digits; use sys.set_int_max_str_digits() to increase the limit"))
  else Ret (decimal (String c s)).
Proof.
  intros Hd. unfold int.
  pose proof Hd as Hd'. cbn [Str.all_chars] in Hd'. apply andb_true_iff in Hd' as [Hc Hs].
  rewrite (lstrip_digits _ _ Hc), (not_sign _ _ Hc).
  cbn [scan_digits]. rewrite Hc, (scan_digits_digits _ _ _ Hs).
  cbn [String.length Nat.add Str.lstrip_by Str.is_empty].
  reflexivity.
Qed.

(** [int] of a port that the pattern matched: the number that its digits
    write, when they are not too many. *)
Lemma int_decimal s :
  s <> EmptyString -> Str.all_chars is_digit s = true ->
  String.length s <= int_max_str_digits ->
  int s = Ret (decimal s).
Proof.
  intros Hne Hd Hl. destruct s as [|c s]; [congruence|].
  rewrite (int_digits _ _ Hd).
  destruct (Nat.ltb_spec int_max_str_digits (String.length (String c s)));
    [cbn [String.length] in *; lia | reflexivity].
Qed.

Lemma int_over_limit s :
  Str.all_chars is_digit s = true ->
  int_max_str_digits < String.length s ->
  exists msg, int s = Raise (ValueError msg).
Proof.
  intros Hd Hl. destruct s as [|c s]; [cbn in Hl; lia|].
  rewrite (int_digits _ _ Hd).
  destruct (Nat.ltb_spec int_max_str_digits (String.length (String c s)));
    [eauto | cbn [String.length] in *; lia].
Qed.

(** ** Console markup *)

Lemma finditer_skip x :
  forall p y, Rich.finditer (String.length x) p (x ++ y) = Rich.finditer 0 (p + String.length x) y.
Proof.
  induction x as [|c x IH]; intros p y.
  - cbn [String.length append]. now rewrite Nat.add_0_r.
  - cbn [String.length append Rich.finditer]. rewrite IH. f_equal. lia.
Qed.

(** Where a text without markup begins, no tag begins. *)
Lemma tag_here_literal c u rest :
  literal_text (String c u) = true ->
  rest = EmptyString \/ (exists r, rest = String "[" r) ->
  Rich.tag_here (String c u ++ rest) = None.
Proof.
  cbn [literal_text append Rich.tag_here]. intros H Hrest.
  apply andb_true_iff in H as [H _]. apply andb_true_iff in H as [Hb Hc].
  apply negb_true_iff in Hb. rewrite Hb.
  destruct (Ascii.eqb c "["); [|reflexivity].
  destruct u as [|d u]; cbn [append].
  - destruct Hrest as [->|[r ->]]; reflexivity.
  - apply negb_true_iff in Hc. now rewrite Hc.
Qed.

Lemma literal_text_tail c u : literal_text (String c u) = true -> literal_text u = true.
Proof. cbn [literal_text]. intros H. now apply andb_true_iff in H as [_ H]. Qed.

Lemma finditer_literal u rest :
  literal_text u = true ->
  rest = EmptyString \/ (exists r, rest = String "[" r) ->
  forall p, Rich.finditer 0 p (u ++ rest) = Rich.finditer 0 (p + String.length u) rest.
Proof.
  intros Hu Hrest. induction u as [|c u IH]; intros p.
  - cbn [append String.length]. now rewrite Nat.add_0_r.
  - pose proof (tag_here_literal c u rest Hu Hrest) as Hnone.
    cbn [append] in *. cbn [Rich.finditer]. rewrite Hnone.
    rewrite (IH (literal_text_tail _ _ Hu)). cbn [String.length]. f_equal. lia.
Qed.

Lemma tag_text_found T rest :
  Str.all_chars no_bracket T = true ->
  Rich.tag_text (T ++ String "]" rest) = Some (T, rest).
Proof.
  induction T as [|c T IH]; cbn [Str.all_chars append Rich.tag_text]; [reflexivity|].
  intros H. apply andb_true_iff in H as [Hc HT]. unfold no_bracket in Hc.
  apply andb_true_iff in Hc as [H1 H2]. apply negb_true_iff in H1, H2.
  now rewrite H2, H1, (IH HT).
Qed.

Lemma finditer_tag c T rest p :
  Rich.tag_start c = true ->
  Str.all_chars no_bracket T = true ->
  Rich.finditer 0 p (String "[" (String c (T ++ String "]" rest))) =
  (p, 0, String c T) :: Rich.finditer 0 (p + String.length T + 3) rest.
Proof.
  intros Hc HT. cbn [append Rich.finditer Rich.tag_here].
  change (Ascii.eqb "[" backslash) with false. change (Ascii.eqb "[" "[") with true.
  cbv iota. rewrite Hc, (tag_text_found _ _ HT). cbn [plus String.length].
  f_equal.
  replace (T ++ String "]" rest)%string with ((T ++ "]") ++ rest)%string
    by now rewrite append_assoc.
  replace (String.length T + 1) with (String.length (T ++ "]")%string)
    by (rewrite length_append; reflexivity).
  rewrite finditer_skip, length_append. cbn [String.length]. f_equal. lia.
Qed.

Lemma partition_none sep T : contains sep T = false -> Rich.partition sep T = (T, None).
Proof.
  induction T as [|c T IH]; cbn [contains Rich.partition]; [reflexivity|].
  intros H. apply orb_false_iff in H as [Hc HT]. now rewrite Hc, (IH HT).
Qed.

Lemma no_bracket_chars T :
  contains "[" T = false -> contains "]" T = false -> Str.all_chars no_bracket T = true.
Proof.
  induction T as [|c T IH]; cbn [contains Str.all_chars]; [reflexivity|].
  intros H1 H2. apply orb_false_iff in H1 as [H1 H1'], H2 as [H2 H2'].
  rewrite IH by assumption. unfold no_bracket. now rewrite H1, H2.
Qed.

(** What a tag name of the program is. *)
Lemma style_name_spec T :
  style_name T = true ->
  exists c T',
    T = String c T' /\ Rich.tag_start c = true /\ Ascii.eqb c "/" = false /\
    Str.all_chars no_bracket T' = true /\ contains "=" T = false /\ Str.strip T = T.
Proof.
  unfold style_name. destruct T as [|c T']; [discriminate|]. intros H.
  repeat (apply andb_true_iff in H as [H ?]).
  exists c, T'.
  repeat match goal with
         | H : negb _ = true |- _ => apply negb_true_iff in H
         end.
  split; [reflexivity|]. split; [assumption|]. split; [assumption|].
  split; [|split; [assumption | now apply String.eqb_eq]].
  cbn [contains] in *.
  repeat match goal with
         | H : (_ || _)%bool = false |- _ => apply orb_false_iff in H as [? ?]
         end.
  now apply no_bracket_chars.
Qed.

Lemma render_eq t markup :
  Rich.render t markup =
  if contains "[" markup then
    match render_matches t (Rich.finditer 0 0 markup) [] with
    | Ret _ => Ret tt
    | Raise e => Raise e
    end
  else Ret tt.
Proof. reflexivity. Qed.

Lemma render_tag_open t position c T' style_stack :
  Ascii.eqb c "/" = false ->
  Rich.render_tag t position (Rich.mkTag (String c T') None) style_stack =
  Ret (Rich.mkTag (Rich.normalize t (String c T')) None :: style_stack).
Proof.
  intros H. unfold Rich.render_tag. cbn [Rich.tag_name Rich.starts_with Rich.parameters].
  now rewrite H.
Qed.

Lemma render_tag_close t position T style_stack :
  T <> EmptyString -> Str.strip T = T ->
  Rich.render_tag t position (Rich.mkTag (String "/" T) None)
    (Rich.mkTag (Rich.normalize t T) None :: style_stack) =
  Ret style_stack.
Proof.
  intros Hne Hstrip. unfold Rich.render_tag.
  cbn [Rich.tag_name Rich.starts_with Rich.tail Rich.parameters].
  change (Ascii.eqb "/" "/") with true. cbv iota. rewrite Hstrip.
  destruct T as [|c T']; [congruence|].
  cbn [Str.is_empty Rich.pop_style Rich.tag_name]. rewrite String.eqb_refl.
  cbn [rbind Rich.parameters]. now destruct (Rich.starts_with "@" _).
Qed.

Lemma render_open_close t T p1 p2 matches style_stack :
  style_name T = true ->
  render_matches t ((p1, 0, T) :: (p2, 0, String "/" T) :: matches) style_stack =
  render_matches t matches style_stack.
Proof.
  intros HT. destruct (style_name_spec _ HT) as (c & T' & -> & Hc & Hslash & _ & Heq & Hstrip).
  unfold render_matches. cbn [flat_map]. change (Nat.odd 0) with false. cbv iota.
  rewrite (partition_none _ _ Heq).
  assert (Heq' : contains "=" (String "/" (String c T')) = false) by exact Heq.
  rewrite (partition_none _ _ Heq').
  cbn [for_each app].
  rewrite (render_tag_open _ _ _ _ _ Hslash).
  rewrite render_tag_close by (discriminate || assumption).
  reflexivity.
Qed.

Lemma render_matches_wrapped t segments last :
  Forall segment_ok segments -> literal_text last = true ->
  forall p style_stack,
    render_matches t (Rich.finditer 0 p (wrapped segments last)) style_stack = Ret style_stack.
Proof.
  intros Hs Hlast. induction Hs as [|[[before T] text] segments (Hb & HT & Hu) _ IH];
    intros p style_stack.
  - cbn [wrapped]. rewrite <- (append_empty_r last).
    rewrite (finditer_literal _ _ Hlast) by now left. reflexivity.
  - cbn [wrapped].
    destruct (style_name_spec _ HT) as (c & T' & E & Hc & Hslash & Hbr & Heq & Hstrip).
    rewrite (finditer_literal _ _ Hb) by (right; eexists; reflexivity).
    rewrite E at 1. cbn [append].
    rewrite (finditer_tag _ _ _ _ Hc Hbr).
    rewrite (finditer_literal _ _ Hu) by (right; eexists; reflexivity).
    cbn [append].
    assert (Hbr' : Str.all_chars no_bracket T = true).
    { rewrite E. cbn [Str.all_chars]. rewrite Hbr.
      unfold no_bracket. destruct c as [[] [] [] [] [] [] [] []]; try reflexivity; discriminate Hc. }
    rewrite (finditer_tag "/" T _ _ eq_refl Hbr').
    rewrite <- E.
    rewrite (render_open_close _ _ _ _ _ _ HT). apply IH.
Qed.

(** The console accepts texts without markup under tags of the program. *)
Lemma render_wrapped t segments last :
  Forall segment_ok segments -> literal_text last = true ->
  Rich.render t (wrapped segments last) = Ret tt.
Proof.
  intros Hs Hlast. rewrite render_eq.
  rewrite (render_matches_wrapped _ _ _ Hs Hlast). now destruct (contains _ _).
Qed.

Lemma render_literal t text : literal_text text = true -> Rich.render t text = Ret tt.
Proof. intros H. exact (render_wrapped t [] text (Forall_nil _) H). Qed.

(** *** Texts without markup *)

Lemma literal_no_markup s : Str.all_chars no_markup s = true -> literal_text s = true.
Proof.
  induction s as [|c s IH]; cbn [Str.all_chars literal_text]; [reflexivity|].
  intros H. apply andb_true_iff in H as [Hc Hs]. unfold no_markup in Hc.
  apply andb_true_iff in Hc as [H1 H2]. apply negb_true_iff in H2.
  now rewrite H1, H2, (IH Hs).
Qed.

Lemma literal_after_no_markup s t :
  Str.all_chars no_markup s = true -> literal_text t = true -> literal_text (s ++ t) = true.
Proof.
  intros Hs Ht. induction s as [|c s IH]; [exact Ht|].
  cbn [Str.all_chars] in Hs. apply andb_true_iff in Hs as [Hc Hs]. unfold no_markup in Hc.
  apply andb_true_iff in Hc as [H1 H2]. apply negb_true_iff in H2.
  cbn [append literal_text]. now rewrite H1, H2, (IH Hs).
Qed.

Lemma all_chars_app p s t :
  Str.all_chars p (s ++ t) = Str.all_chars p s && Str.all_chars p t.
Proof.
  induction s as [|c s IH]; cbn [append Str.all_chars]; [reflexivity|].
  now rewrite IH, andb_assoc.
Qed.

Lemma digits_of_uint d : Str.all_chars is_digit (NilEmpty.string_of_uint d) = true.
Proof. induction d; cbn [NilEmpty.string_of_uint Str.all_chars]; auto. Qed.

Lemma str_of_nat_digits n : Str.all_chars is_digit (str_of_nat n) = true.
Proof. apply digits_of_uint. Qed.

Lemma digit_no_markup c : is_digit c = true -> no_markup c = true.
Proof. destruct c as [[] [] [] [] [] [] [] []]; vm_compute; congruence. Qed.

Lemma str_of_nat_no_markup n : Str.all_chars no_markup (str_of_nat n) = true.
Proof. exact (all_chars_weaken _ _ _ digit_no_markup (str_of_nat_digits n)). Qed.

Lemma two_digits_no_markup n : Str.all_chars no_markup (two_digits n) = true.
Proof.
  unfold two_digits. rewrite all_chars_app, str_of_nat_no_markup.
  now destruct (Nat.ltb n 10).
Qed.

Lemma strftime_no_markup d : Str.all_chars no_markup (strftime d) = true.
Proof.
  unfold strftime.
  now rewrite !all_chars_app, str_of_nat_no_markup, !two_digits_no_markup.
Qed.


Lemma percentage_no_markup use_percent :
  percentage use_percent -> Str.all_chars no_markup use_percent = true.
Proof.
  intros (digits & signs & _ & Hd & _ & Hs & ->).
  rewrite all_chars_app, (all_chars_weaken _ _ _ digit_no_markup Hd).
  apply all_chars_weaken with (2 := Hs). intros c Hc.
  destruct c as [[] [] [] [] [] [] [] []]; try reflexivity; discriminate Hc.
Qed.

(** *** What the console prints *)

Lemma console_print_eq w r st :
  console_print w r st =
  match render_error (rich w) r with
  | Ret _ => Some (Ret tt, printed [Printed r] st)
  | Raise e => Some (Raise e, st)
  end.
Proof.
  unfold console_print, bind, lift, console_emit, printed.
  now destruct (render_error (rich w) r) as [[]|e].
Qed.

Lemma console_print_accepted w r st :
  accepted w r -> console_print w r st = Some (Ret tt, printed [Printed r] st).
Proof. intros H. rewrite console_print_eq. now rewrite H. Qed.

Lemma file_not_found_accepted w :
  accepted w (Markup "[red]Error: .zshrc file not found[/red]").
Proof.
  refine (render_wrapped _ [(EmptyString, "red", "Error: .zshrc file not found")]
            EmptyString _ eq_refl).
  repeat constructor.
Qed.

Lemma no_servers_accepted w :
  accepted w (Markup "[red]No servers found in .zshrc file[/red]").
Proof.
  refine (render_wrapped _ [(EmptyString, "red", "No servers found in .zshrc file")]
            EmptyString _ eq_refl).
  repeat constructor.
Qed.

(** ** Discovery *)

Lemma append_server_match groups t rest :
  Re.match_here ssh_pattern t = Some (groups, rest) ->
  String.length (port_digits groups) <= int_max_str_digits ->
  forall server_info,
    append_server groups server_info = Ret (server_info ++ [target_of_match groups]).
Proof.
  intros H Hl server_info.
  apply ssh_match_groups in H
    as (port & user & host & -> & Hport & Dport & _).
  unfold append_server. now rewrite int_decimal.
Qed.

(** A port of too many digits is the one error of the loop over the
    matches. *)
Lemma append_server_over_limit groups t rest :
  Re.match_here ssh_pattern t = Some (groups, rest) ->
  int_max_str_digits < String.length (port_digits groups) ->
  forall server_info,
    exists msg, append_server groups server_info = Raise (ValueError msg).
Proof.
  intros H Hl server_info.
  apply ssh_match_groups in H
    as (port & user & host & -> & Hport & Dport & _).
  unfold append_server.
  destruct (int_over_limit port Dport Hl) as [msg ->]. now exists msg.
Qed.

Lemma flat_map_singleton {A B} (f : A -> B) xs : flat_map (fun x => [f x]) xs = map f xs.
Proof. induction xs as [|x xs IH]; simpl; [reflexivity | now rewrite IH]. Qed.

Lemma map_flat_map {A B C} (f : B -> C) (g : A -> list B) xs :
  map f (flat_map g xs) = flat_map (fun x => map f (g x)) xs.
Proof.
  induction xs as [|x xs IH]; simpl; [reflexivity|].
  now rewrite map_app, IH.
Qed.

(** The loop over the matches appends one target per match and raises
    nothing, when no port has too many digits. *)
Lemma targets_of_matches text :
  ports_within_limit text ->
  for_each (Re.finditer ssh_pattern text) append_server [] =
  Ret (map target_of_match (Re.finditer ssh_pattern text)).
Proof.
  intros Hl.
  rewrite for_each_appends_in with (f := fun groups => [target_of_match groups]).
  - now rewrite flat_map_singleton.
  - intros groups Hin acc.
    pose proof (proj1 (Forall_forall _ _) Hl _ Hin) as Hg.
    apply scan_occurrences in Hin as (before & t & rest & _ & Hm).
    eapply append_server_match; eassumption.
Qed.

(** The loop over the matches returns targets or raises ValueError; it
    returns when no port has too many digits, and only then. *)
Lemma discovery_loop matches :
  (forall groups, In groups matches ->
                  exists t rest, Re.match_here ssh_pattern t = Some (groups, rest)) ->
  forall server_info,
    (exists targets, for_each matches append_server server_info = Ret targets /\
                     Forall (fun groups =>
                               String.length (port_digits groups) <= int_max_str_digits)
                            matches) \/
    (exists msg, for_each matches append_server server_info = Raise (ValueError msg) /\
                 ~ Forall (fun groups =>
                             String.length (port_digits groups) <= int_max_str_digits)
                          matches).
Proof.
  induction matches as [|groups matches IH]; intros Hm server_info.
  - left. exists server_info. split; [reflexivity | constructor].
  - destruct (Hm groups (or_introl eq_refl)) as (t & rest & Hg).
    cbn [for_each].
    destruct (Nat.le_gt_cases (String.length (port_digits groups)) int_max_str_digits)
      as [Hl|Hl].
    + rewrite (append_server_match _ _ _ Hg Hl).
      destruct (IH (fun g Hin => Hm g (or_intror Hin)) (server_info ++ [target_of_match groups]))
        as [(targets & -> & Hall)|(msg & -> & Hall)].
      * left. exists targets. split; [reflexivity | now constructor].
      * right. exists msg. split; [reflexivity|]. intros H. inversion H. contradiction.
    + destruct (append_server_over_limit _ _ _ Hg Hl server_info) as [msg ->].
      right. exists msg. split; [reflexivity|]. intros H. inversion H. lia.
Qed.

Lemma discovery_outcome text :
  (exists targets, for_each (Re.finditer ssh_pattern text) append_server [] = Ret targets /\
                   ports_within_limit text) \/
  (exists msg, for_each (Re.finditer ssh_pattern text) append_server [] =
               Raise (ValueError msg) /\
               ~ ports_within_limit text).
Proof.
  apply discovery_loop. intros groups Hin.
  apply scan_occurrences in Hin as (before & t & rest & _ & Hm). eauto.
Qed.

Lemma targets_by_line text :
  map target_of_match (Re.finditer ssh_pattern text) =
  flat_map line_targets (Str.split Str.newline text).
Proof.
  rewrite finditer_by_line
    by (apply ssh_pattern_not_nil || apply ssh_pattern_avoids_newline).
  apply map_flat_map.
Qed.

(** When the file exists, discovery is the loop over the matches: it prints
    nothing and catches nothing. *)
Lemma read_zshrc_aliases_loop w content st :
  zshrc w = Some content ->
  read_zshrc_aliases w st =
  Some (for_each (Re.finditer ssh_pattern content) append_server [], st).
Proof.
  intros H. unfold read_zshrc_aliases, try_except, bind, read_file, lift, ret.
  rewrite H.
  now destruct (discovery_outcome content) as [(targets & -> & _)|(msg & -> & _)].
Qed.

Lemma read_zshrc_aliases_found w content st :
  zshrc w = Some content -> ports_within_limit content ->
  read_zshrc_aliases w st =
  Some (Ret (map target_of_match (Re.finditer ssh_pattern content)), st).
Proof.
  intros H Hl. rewrite (read_zshrc_aliases_loop _ _ _ H). now rewrite targets_of_matches.
Qed.

Lemma read_zshrc_aliases_missing w st :
  zshrc w = None ->
  read_zshrc_aliases w st = Some (Ret [], printed [file_not_found_message] st).
Proof.
  intros H. unfold read_zshrc_aliases, try_except, bind at 1, read_file, raise.
  rewrite H. unfold bind.
  now rewrite (console_print_accepted _ _ _ (file_not_found_accepted w)).
Qed.

Lemma finditer_before_line p x tail :
  p <> [] -> forallb (avoids Str.newline) p = true ->
  Re.finditer p (x ++ nl ++ tail) = Re.finditer p x ++ Re.finditer p tail.
Proof.
  intros Hne Hp. unfold Re.finditer. cbn [nl append].
  apply scan_followed_by; (assumption || lia).
Qed.

(** ** C7, C8: target discovery *)

Lemma line_targets_occurrence line target :
  In target (line_targets line) ->
  exists before port user host after,
    line = (before ++ "ssh -P " ++ port ++ " " ++ user ++ "@" ++ host ++ after)%string /\
    port <> EmptyString /\ Str.all_chars is_digit port = true /\
    user <> EmptyString /\ Str.all_chars Re.word user = true /\
    host <> EmptyString /\ Str.all_chars Re.digit_or_dot host = true /\
    (String.length port <= int_max_str_digits -> int port = Ret (decimal port)) /\
    target = mkTarget host user (decimal port).
Proof.
  unfold line_targets. intros H.
  apply in_map_iff in H as (groups & <- & H).
  apply scan_occurrences in H as (before & t & rest & -> & H).
  apply ssh_match_groups in H
    as (port & user & host & -> & Hp & Dp & Hu & Du & Hh & Dh & ->).
  exists before, port, user, host, rest.
  repeat split; try assumption. now apply int_decimal.
Qed.

(** C7, as the claim words it, fails: a line that holds two aliases is one
    matching line and gives two targets.  (And the command of the pattern is
    [ssh]: the line [remote-shell -P 22 alice@10.0.0.5], read to the letter,
    gives no target.) *)
Lemma two_aliases_on_one_line_two_targets :
  read_zshrc_aliases (world_of_zshrc (Some two_aliases_on_one_line)) initial =
    Some (Ret [mkTarget "10.0.0.5" "alice" 22; mkTarget "10.0.0.6" "bob" 2222], initial) /\
  matching_lines two_aliases_on_one_line = [two_aliases_on_one_line] /\
  ~ one_target_per_matching_line two_aliases_on_one_line /\
  read_zshrc_aliases (world_of_zshrc (Some remote_shell_alias)) initial =
    Some (Ret [], initial).
Proof.
  split; [vm_compute; reflexivity|].
  split; [vm_compute; reflexivity|].
  split; [|vm_compute; reflexivity].
  intros (targets & st & H & L).
  vm_compute in H. injection H as <- _.
  vm_compute in L. discriminate.
Qed.

(** C7 (amended): when the configuration file exists and no port in it has
    more digits than [int] converts, discovery raises nothing, prints
    nothing and returns one target for each match of the pattern, in the
    order of the text; no match runs over the end of a line, so the targets
    are those of the first line, then those of the second, and so on: a line
    that holds several matches gives as many targets, a line that holds none
    gives none.  Each target comes from an occurrence of
    [ssh -P <port> <user>@<host>] in its line: it has that host and that
    user, and its port is the integer that the digits of <port> write, which
    is what [int] makes of them.  In particular the line
    [ssh -P 22 alice@10.0.0.5] and, before or after it, a text that holds no
    match give exactly the target of host 10.0.0.5, user alice and port
    22.  (A port of more digits than [int] converts makes discovery raise
    ValueError.) *)
Theorem read_zshrc_aliases_targets :
  (forall w content st,
     zshrc w = Some content ->
     ports_within_limit content ->
     read_zshrc_aliases w st =
     Some (Ret (flat_map line_targets (Str.split Str.newline content)), st)) /\
  (forall line, Re.finditer ssh_pattern line = [] -> line_targets line = []) /\
  (forall line target,
     In target (line_targets line) ->
     exists before port user host after,
       line = (before ++ "ssh -P " ++ port ++ " " ++ user ++ "@" ++ host ++ after)%string /\
       port <> EmptyString /\ Str.all_chars is_digit port = true /\
       user <> EmptyString /\ Str.all_chars Re.word user = true /\
       host <> EmptyString /\ Str.all_chars Re.digit_or_dot host = true /\
       (String.length port <= int_max_str_digits -> int port = Ret (decimal port)) /\
       target = mkTarget host user (decimal port)) /\
  (forall w other st,
     Re.finditer ssh_pattern other = [] ->
     zshrc w = Some ("ssh -P 22 alice@10.0.0.5" ++ nl ++ other)%string \/
     zshrc w = Some (other ++ nl ++ "ssh -P 22 alice@10.0.0.5")%string ->
     read_zshrc_aliases w st = Some (Ret [mkTarget "10.0.0.5" "alice" 22], st)) /\
  (forall w content st,
     zshrc w = Some content ->
     ~ ports_within_limit content ->
     exists msg, read_zshrc_aliases w st = Some (Raise (ValueError msg), st)).
Proof.
  split; [|split; [|split; [|split]]].
  - intros w content st H Hl.
    rewrite (read_zshrc_aliases_found _ _ _ H Hl). now rewrite targets_by_line.
  - intros line H. unfold line_targets. now rewrite H.
  - exact line_targets_occurrence.
  - intros w other st Hother [H|H];
      rewrite (read_zshrc_aliases_loop _ _ _ H);
      rewrite finditer_before_line
        by (apply ssh_pattern_not_nil || apply ssh_pattern_avoids_newline);
      rewrite Hother; reflexivity.
  - intros w content st H Hl. rewrite (read_zshrc_aliases_loop _ _ _ H).
    destruct (discovery_outcome content) as [(targets & _ & Hin)|(msg & -> & _)];
      [contradiction | eauto].
Qed.

(** C8, as the claim words it, fails: whether the file is missing or holds
    no alias, [read_zshrc_aliases] returns the empty list, so what is
    returned does not tell the two apart. *)
Lemma missing_file_returns_as_no_match :
  returned (read_zshrc_aliases (world_of_zshrc None) initial) = Some (Ret []) /\
  returned (read_zshrc_aliases (world_of_zshrc (Some zshrc_without_alias)) initial) =
    Some (Ret []) /\
  ~ caller_tells_apart (world_of_zshrc None) (world_of_zshrc (Some zshrc_without_alias)).
Proof.
  split; [reflexivity|]. split; [reflexivity|].
  intros H. apply H. reflexivity.
Qed.

Lemma main_without_servers w fuel st st' :
  read_zshrc_aliases w st = Some (Ret [], st') ->
  main w fuel st = Some (Ret tt, printed [no_servers_message] st').
Proof.
  intros H. unfold main, bind. rewrite H.
  now rewrite (console_print_accepted _ _ _ (no_servers_accepted w)).
Qed.

(** C8 (amended): a missing configuration file and a file that holds no
    match are told apart on the console only.  In the first case
    [read_zshrc_aliases] prints that the file was not found, in the second
    it prints nothing; in both it returns the empty list, and [main], which
    sees that value alone, prints that no servers were found and returns
    without a poll. *)
Theorem missing_file_and_no_match :
  (forall w st,
     zshrc w = None ->
     read_zshrc_aliases w st = Some (Ret [], printed [file_not_found_message] st)) /\
  (forall w content st,
     zshrc w = Some content ->
     Re.finditer ssh_pattern content = [] ->
     read_zshrc_aliases w st = Some (Ret [], st)) /\
  (forall w fuel st,
     zshrc w = None ->
     main w fuel st =
     Some (Ret tt, printed [file_not_found_message; no_servers_message] st)) /\
  (forall w content fuel st,
     zshrc w = Some content ->
     Re.finditer ssh_pattern content = [] ->
     main w fuel st = Some (Ret tt, printed [no_servers_message] st)).
Proof.
  split; [exact read_zshrc_aliases_missing|].
  assert (Hnone : forall w content st,
             zshrc w = Some content ->
             Re.finditer ssh_pattern content = [] ->
             read_zshrc_aliases w st = Some (Ret [], st)).
  { intros w content st H E.
    rewrite (read_zshrc_aliases_loop _ _ _ H). now rewrite E. }
  split; [exact Hnone|]. split.
  - intros w fuel st H.
    rewrite (main_without_servers _ _ _ _ (read_zshrc_aliases_missing _ st H)).
    unfold printed. simpl. now rewrite <- app_assoc.
  - intros w content fuel st H E.
    now rewrite (main_without_servers _ _ _ _ (Hnone _ _ st H E)).
Qed.


(** ** One target *)

Lemma get_server_info_eq w server password st :
  let h := network w (clients st) server password in
  get_server_info w server password st = Some (Ret (fetch_result h), after_fetch server h st).
Proof.
  cbv zeta.
  unfold get_server_info, fetch_result, after_fetch, session_events, gpu_text.
  unfold try_except, bind, new_SSHClient, set_missing_host_key_policy, connect,
    exec_command, close, ssh_emit, lift, ret, raise.
  cbn [client_id peer clients ssh_log console clock_reads fetched].
  destruct (refuses (network w (clients st) server password)) as [e|].
  - cbn. now rewrite app_nil_r.
  - cbn -[parse_gpu_info parse_storage_info gpu_table storage_table Str.strip].
    destruct (run (network w (clients st) server password) "nvidia-smi") as [gpu|e1];
      cbn -[parse_gpu_info parse_storage_info gpu_table storage_table Str.strip];
      (destruct (run (network w (clients st) server password) "df -h") as [df|e2];
       cbn -[parse_gpu_info parse_storage_info gpu_table storage_table Str.strip];
       rewrite ?parse_gpu_info_eq;
       cbn -[parse_gpu_info parse_storage_info gpu_table storage_table Str.strip];
       rewrite ?parse_storage_info_eq;
       cbn -[parse_gpu_info parse_storage_info gpu_table storage_table Str.strip];
       rewrite <- ?app_assoc; reflexivity).
Qed.

Lemma parse_gpu_info_placeholder : parse_gpu_info "No GPU information available" = Ret [].
Proof. reflexivity. Qed.

(** A host on which the GPU tool runs and writes nothing gives a success
    without GPU records as well, the placeholder unused. *)
Lemma get_server_info_silent_gpu_tool w server password st out :
  refuses (network w (clients st) server password) = None ->
  run (network w (clients st) server password) "nvidia-smi" = Ret EmptyString ->
  run (network w (clients st) server password) "df -h" = Ret out ->
  exists st',
    get_server_info w server password st =
    Some (Ret (Success [] (storage_table (Str.strip out))), st').
Proof.
  intros Hc Hgpu Hdf. eexists.
  rewrite get_server_info_eq. unfold fetch_result, gpu_text.
  now rewrite Hc, Hgpu, Hdf.
Qed.

(** ** Rendering *)

Lemma passes_app events events' : passes (events ++ events') = passes events + passes events'.
Proof. unfold passes. now rewrite filter_app, length_app. Qed.

Lemma passes_printed rs : passes (map Printed rs) = 0.
Proof. induction rs as [|r rs IH]; [reflexivity | exact IH]. Qed.

Lemma printed_nil st : printed [] st = st.
Proof. destruct st. unfold printed. cbn. now rewrite app_nil_r. Qed.

Lemma printed_printed events events' st :
  printed events' (printed events st) = printed (events ++ events') st.
Proof. unfold printed. cbn. now rewrite app_assoc. Qed.

(** A print followed by the rest of a function. *)
Lemma print_then {A} w r (k : unit -> M A) st :
  bind (console_print w r) k st =
  match render_error (rich w) r with
  | Ret _ => k tt (printed [Printed r] st)
  | Raise e => Some (Raise e, st)
  end.
Proof.
  unfold bind. rewrite console_print_eq.
  now destruct (render_error (rich w) r) as [[]|e].
Qed.

Lemma lift_then {A B} (x : result A) (k : A -> M B) st :
  bind (lift x) k st =
  match x with
  | Ret a => k a st
  | Raise e => Some (Raise e, st)
  end.
Proof. unfold bind, lift. now destruct x. Qed.

(** The next print of a function: the console accepts it or not. *)
Ltac print_step :=
  first [rewrite print_then | rewrite console_print_eq];
  match goal with
  | |- exists _, match render_error ?t ?r with _ => _ end = _ /\ _ =>
      destruct (render_error t r) as [[]|?] eqn:?
  end;
  cbv beta; rewrite ?printed_printed; cbn [app].

(** What was shown, from what the console accepted. *)
Ltac shown_so_far :=
  cbn [shown];
  repeat match goal with
         | H : render_error _ _ = _ |- _ => rewrite H
         end;
  cbn [map].

Ltac not_rendered :=
  split;
  [discriminate
  |intros [Hall Htable];
   repeat match goal with
          | H : Forall _ (_ :: _) |- _ => pose proof (Forall_inv H); apply Forall_inv_tail in H
          end;
   unfold accepted in *; try congruence; try (destruct Htable; congruence)].

(** Rendering always returns.  It prints, in turn, the panel of the server
    and what is shown of the result, up to the first of them that the
    console cannot render; it raises nothing exactly when the console
    accepts them all and the storage table can be built. *)
Lemma display_server_info_prints w server info st :
  exists r,
    display_server_info w server info st =
    Some (r, printed (map Printed (shown (rich w) (server_panel server :: shown_for info))) st) /\
    (r = Ret tt <-> renders w server info).
Proof.
  unfold renders, display_server_info, server_panel.
  destruct info as [gpu_info storage_info|error]; cbn [shown_for].
  - destruct (create_storage_table storage_info) as [table|e] eqn:Etable;
      destruct gpu_info as [|gpu gpus]; cbn [app];
      (print_step; [|shown_so_far; eexists; rewrite printed_nil; split; [reflexivity | not_rendered]]);
      (print_step; [|shown_so_far; eexists; split; [reflexivity | not_rendered]]);
      (print_step; [|shown_so_far; eexists; split; [reflexivity | not_rendered]]);
      (print_step; [|shown_so_far; eexists; split; [reflexivity | not_rendered]]);
      rewrite lift_then;
      try (shown_so_far; eexists; split; [reflexivity | not_rendered]);
      (print_step; [|shown_so_far; eexists; split; [reflexivity | not_rendered]]);
      (print_step; [|shown_so_far; eexists; split; [reflexivity | not_rendered]]);
      shown_so_far; eexists; (split; [reflexivity|]);
      (split; [intros _; split; [repeat constructor; assumption | eauto] | reflexivity]).
  - (print_step; [|shown_so_far; eexists; rewrite printed_nil; split; [reflexivity | not_rendered]]);
      (print_step; [|shown_so_far; eexists; split; [reflexivity | not_rendered]]);
      shown_so_far; eexists; (split; [reflexivity|]);
      (split; [intros _; split; [repeat constructor; assumption | exact I] | reflexivity]).
Qed.

(** What stands at the head of a pass is always accepted: the time is made
    of digits, and so is the number of the servers. *)
Lemma dashboard_accepted w d :
  accepted w (Panel ("[bold yellow]Server Monitoring Dashboard[/bold yellow]" ++ nl ++
                     "[dim]Last updated: " ++ strftime d ++ "[/dim]")).
Proof.
  refine (render_wrapped _
            [(EmptyString, "bold yellow", "Server Monitoring Dashboard");
             (nl, "dim", ("Last updated: " ++ strftime d)%string)]
            EmptyString _ eq_refl).
  repeat constructor.
  apply literal_after_no_markup; [reflexivity|].
  apply literal_no_markup, strftime_no_markup.
Qed.

Lemma monitoring_accepted w n :
  accepted w (Markup ("Monitoring " ++ str_of_nat n ++ " servers..." ++ nl)).
Proof.
  apply render_literal, literal_no_markup.
  now rewrite !all_chars_app, str_of_nat_no_markup.
Qed.

(** ** One pass over the targets *)

(** The body of the loop over the targets always returns: it records what
    [get_server_info] returned, then renders it. *)
Lemma poll_step w password server st :
  exists r events,
    poll w password server st =
    Some (r, printed events
               (recorded server (fetch_result (network w (clients st) server password))
                  (after_fetch server (network w (clients st) server password) st))) /\
    passes events = 0 /\
    (renders w server (fetch_result (network w (clients st) server password)) -> r = Ret tt) /\
    (r = Ret tt -> renders w server (fetch_result (network w (clients st) server password))).
Proof.
  unfold poll, bind at 1. rewrite get_server_info_eq.
  unfold bind, record_fetched.
  cbn [console ssh_log clients clock_reads fetched after_fetch].
  match goal with
  | |- context [display_server_info ?w ?s ?i ?st'] =>
      destruct (display_server_info_prints w s i st') as (r & Hd & Hr)
  end.
  exists r. eexists. rewrite Hd. unfold recorded, after_fetch.
  split; [reflexivity|]. split; [apply passes_printed|]. split; apply Hr.
Qed.

Lemma for_M_cons {A} (x : A) xs body st :
  for_M (x :: xs) body st =
  match body x st with
  | Some (Ret _, st') => for_M xs body st'
  | Some (Raise e, st') => Some (Raise e, st')
  | None => None
  end.
Proof. reflexivity. Qed.

(** A pass over the targets always returns.  It polls the targets in their
    order, each once, up to the first whose result cannot be rendered; it
    clears nothing. *)
Lemma poll_cycle w password servers :
  forall st,
  exists r st' polled rest,
    for_M servers (poll w password) st = Some (r, st') /\
    fetched st' = fetched st ++ polled /\
    passes (console st') = passes (console st) /\
    servers = map fst polled ++ rest /\
    (r = Ret tt -> rest = []) /\
    (Forall (fun p => renders w (fst p) (snd p)) polled -> r = Ret tt).
Proof.
  induction servers as [|server servers IH]; intros st.
  - exists (Ret tt), st, [], []. cbn. rewrite app_nil_r. repeat split; auto.
  - rewrite for_M_cons.
    destruct (poll_step w password server st) as (r & events & Hp & He & Hr & Hr').
    rewrite Hp.
    set (info := fetch_result (network w (clients st) server password)) in *.
    set (st2 := printed events _) in *.
    assert (Hf : fetched st2 = fetched st ++ [(server, info)]) by reflexivity.
    assert (Hc : passes (console st2) = passes (console st)).
    { subst st2. unfold printed, recorded, after_fetch. cbn [console].
      rewrite passes_app. lia. }
    destruct r as [[]|e].
    + destruct (IH st2) as (r & st' & polled & rest & Hrun & Hf' & Hc' & Hs & Hrest & Hall).
      exists r, st', ((server, info) :: polled), rest.
      rewrite Hrun, Hf', Hf, Hc', Hc, <- app_assoc, Hs.
      repeat split; try assumption.
      intros H. inversion H. auto.
    + exists (Raise e), st2, [(server, info)], servers.
      rewrite Hf, Hc.
      repeat split; try discriminate.
      intros H. inversion H as [|? ? Hi _]. apply Hr in Hi. discriminate.
Qed.

(** ** The loop of main *)

Lemma main_pass w st server servers fuel :
  read_zshrc_aliases w st = Some (Ret (server :: servers), st) ->
  main w (S fuel) st =
  match for_M (server :: servers) (poll w (typed_password w))
              (pass_start w (server :: servers) st) with
  | Some (Ret _, st') => Some (Ret tt, st')
  | Some (Raise e, st') => Some (Raise e, st')
  | None => None
  end.
Proof.
  intros H. unfold main, bind at 1. rewrite H.
  unfold getpass, now_strftime, console_clear, console_emit.
  cbn [while_true].
  unfold bind at 1 2 3 4 5, ret.
  cbn [console ssh_log clients clock_reads fetched].
  rewrite print_then, (dashboard_accepted w), print_then, (monitoring_accepted w).
  unfold printed, pass_start, bind.
  cbn [console ssh_log clients clock_reads fetched].
  rewrite <- !app_assoc. cbn [app].
  match goal with
  | |- context [for_M ?xs ?body ?s] => destruct (for_M xs body s) as [[[u|e] st']|]
  end; reflexivity.
Qed.

Lemma main_with_servers w st server servers :
  read_zshrc_aliases w st = Some (Ret (server :: servers), st) ->
  exists st1,
    passes (console st1) = S (passes (console st)) /\
    fetched st1 = fetched st /\
    forall fuel,
      main w (S fuel) st =
      match for_M (server :: servers) (poll w (typed_password w)) st1 with
      | Some (Ret _, st') => Some (Ret tt, st')
      | Some (Raise e, st') => Some (Raise e, st')
      | None => None
      end.
Proof.
  intros H. exists (pass_start w (server :: servers) st).
  split; [|split].
  - unfold pass_start. cbn [console]. rewrite passes_app. cbn. lia.
  - reflexivity.
  - intros fuel. now apply main_pass.
Qed.

(** *** What the console accepts of a result *)

Lemma for_each_unit {A} (f : A -> result unit) xs :
  Forall (fun x => f x = Ret tt) xs -> for_each xs (fun x _ => f x) tt = Ret tt.
Proof.
  induction 1 as [|x xs Hx _ IH]; [reflexivity|].
  cbn [for_each]. now rewrite Hx.
Qed.

Lemma nth_Forall {A} (P : A -> Prop) xs j d : P d -> Forall P xs -> P (nth j xs d).
Proof.
  intros Hd Hxs. destruct (nth_in_or_default j xs d) as [Hin| ->]; [|exact Hd].
  revert Hin. now apply Forall_forall.
Qed.

(** The console accepts a table when it accepts its headers and its
    cells. *)
Lemma grid_accepted w table :
  Forall (fun cell => Rich.render (rich w) cell = Ret tt) (map fst (columns table)) ->
  Forall (Forall (fun cell => Rich.render (rich w) cell = Ret tt)) (rows table) ->
  accepted w (Grid table).
Proof.
  intros Hh Hr. unfold accepted, render_error.
  apply for_each_unit with (f := Rich.render (rich w)).
  unfold table_cells. apply Forall_flat_map, Forall_forall. intros j _.
  unfold column_cells. constructor.
  - apply nth_Forall; [reflexivity | exact Hh].
  - apply Forall_map, Forall_forall. intros row Hrow.
    apply nth_Forall; [reflexivity|].
    revert row Hrow. now apply Forall_forall.
Qed.

Lemma server_panel_accepted w server :
  literal_text (host server) = true -> accepted w (server_panel server).
Proof.
  intros H.
  refine (render_wrapped _
            [(EmptyString, "bold blue", ("Server: " ++ host server)%string)]
            EmptyString _ eq_refl).
  repeat constructor. now apply literal_after_no_markup.
Qed.

Lemma error_line_accepted w error :
  literal_text error = true -> accepted w (Markup ("[red]Error: " ++ error ++ "[/red]")).
Proof.
  intros H.
  refine (render_wrapped _ [(EmptyString, "red", ("Error: " ++ error)%string)]
            EmptyString _ eq_refl).
  repeat constructor. now apply literal_after_no_markup.
Qed.

Lemma gpu_header_accepted w :
  accepted w (Markup (nl ++ "[bold green]GPU Information:[/bold green]")).
Proof.
  refine (render_wrapped _ [(nl, "bold green", "GPU Information:")] EmptyString _ eq_refl).
  repeat constructor.
Qed.

Lemma no_gpu_line_accepted w :
  accepted w (Markup "[yellow]No GPU information available[/yellow]").
Proof.
  refine (render_wrapped _ [(EmptyString, "yellow", "No GPU information available")]
            EmptyString _ eq_refl).
  repeat constructor.
Qed.

Lemma storage_header_accepted w :
  accepted w (Markup (nl ++ "[bold green]Storage Information:[/bold green]")).
Proof.
  refine (render_wrapped _ [(nl, "bold green", "Storage Information:")] EmptyString _ eq_refl).
  repeat constructor.
Qed.

Lemma rule_accepted w : accepted w (Markup (nl ++ repeat_string "=" 80 ++ nl)).
Proof. apply render_literal. reflexivity. Qed.

Lemma renders_failure w server error :
  literal_text (host server) = true -> literal_text error = true ->
  renders w server (Failure error).
Proof.
  intros Hh He. split; [|exact I]. cbn [shown_for].
  repeat constructor; [now apply server_panel_accepted | now apply error_line_accepted].
Qed.

(** ** C5, C6: what one target gives *)

Lemma read_gpu_info_eq client h st :
  read_gpu_info (mkClient client (Some h)) st =
  Some (Ret (gpu_text h),
        mkState (console st) (ssh_log st ++ [Executed client "nvidia-smi"]) (clients st)
                (clock_reads st) (fetched st)).
Proof.
  unfold read_gpu_info, try_except, exec_command, bind, ssh_emit, lift, ret, gpu_text.
  cbn [peer client_id]. now destruct (run h "nvidia-smi").
Qed.

(** C5, as the claim words it, fails: on a host without the GPU tool the
    command runs, writes nothing and raises nothing, so the placeholder is
    not put in the place of its output: the empty output is what is parsed.
    The result is a success without GPU records all the same. *)
Lemma gpu_tool_absent_no_sentinel :
  returned (read_gpu_info (mkClient 0 (Some host_gpu_tool_absent)) initial) =
    Some (Ret EmptyString) /\
  ~ sentinel_substituted host_gpu_tool_absent /\
  exists st',
    get_server_info (world_of_host host_gpu_tool_absent) alice "secret" initial =
    Some (Ret (Success [] [mkStorage "/dev/sda1" "100G" "91G" "9G" "91%" "/"]), st').
Proof.
  split; [reflexivity|]. split.
  - intros H. specialize (H 0 initial). discriminate H.
  - eexists. vm_compute. reflexivity.
Qed.

(** C5 (amended): when the connection succeeds and [df -h] returns its
    output, [get_server_info] returns a success whose storage records are
    those that [parse_storage_info] reads in that output, whatever the GPU
    tool does.  The text parsed for the GPU records is the placeholder when
    running the tool raises, and then there is no GPU record; when the tool
    runs without raising, as a tool that is absent or fails on the host
    does, the text parsed is what it wrote, no placeholder stands for it,
    and the GPU records are those read in it: none when it wrote
    nothing. *)
Theorem get_server_info_without_gpu :
  forall w server password st out,
    refuses (network w (clients st) server password) = None ->
    run (network w (clients st) server password) "df -h" = Ret out ->
    exists storage,
      parse_storage_info out = Ret storage /\
      (forall st0,
         returned (read_gpu_info
                     (mkClient (clients st) (Some (network w (clients st) server password)))
                     st0) =
         Some (Ret (gpu_text (network w (clients st) server password)))) /\
      (forall e,
         run (network w (clients st) server password) "nvidia-smi" = Raise e ->
         gpu_text (network w (clients st) server password) = "No GPU information available" /\
         parse_gpu_info "No GPU information available" = Ret [] /\
         exists st',
           get_server_info w server password st = Some (Ret (Success [] storage), st')) /\
      (forall text,
         run (network w (clients st) server password) "nvidia-smi" = Ret text ->
         gpu_text (network w (clients st) server password) = text /\
         exists gpus st',
           parse_gpu_info text = Ret gpus /\
           (text = EmptyString -> gpus = []) /\
           get_server_info w server password st = Some (Ret (Success gpus storage), st')).
Proof.
  intros w server password st out Hc Hdf.
  exists (storage_table (Str.strip out)).
  split; [apply parse_storage_info_eq|]. split; [|split].
  - intros st0. now rewrite read_gpu_info_eq.
  - intros e Hgpu. unfold gpu_text. rewrite Hgpu.
    split; [reflexivity|]. split; [reflexivity|]. eexists.
    rewrite get_server_info_eq. unfold fetch_result, gpu_text.
    now rewrite Hc, Hgpu, Hdf.
  - intros text Hgpu. unfold gpu_text. rewrite Hgpu. split; [reflexivity|].
    exists (gpu_table (Str.strip text)). eexists.
    split; [apply parse_gpu_info_eq|]. split; [now intros ->|].
    rewrite get_server_info_eq. unfold fetch_result, gpu_text.
    now rewrite Hc, Hgpu, Hdf.
Qed.

Lemma get_server_info_without_gpu_witness :
  exists storage,
    parse_storage_info df_output = Ret storage /\
    (forall st0,
       returned (read_gpu_info
                   (mkClient (clients initial)
                      (Some (network (world_of_host host_without_gpu) (clients initial)
                               alice "secret")))
                   st0) =
       Some (Ret (gpu_text (network (world_of_host host_without_gpu) (clients initial)
                              alice "secret")))) /\
    (forall e,
       run (network (world_of_host host_without_gpu) (clients initial) alice "secret")
           "nvidia-smi" = Raise e ->
       gpu_text (network (world_of_host host_without_gpu) (clients initial) alice "secret") =
         "No GPU information available" /\
       parse_gpu_info "No GPU information available" = Ret [] /\
       exists st',
         get_server_info (world_of_host host_without_gpu) alice "secret" initial =
         Some (Ret (Success [] storage), st')) /\
    (forall text,
       run (network (world_of_host host_without_gpu) (clients initial) alice "secret")
           "nvidia-smi" = Ret text ->
       gpu_text (network (world_of_host host_without_gpu) (clients initial) alice "secret") =
         text /\
       exists gpus st',
         parse_gpu_info text = Ret gpus /\
         (text = EmptyString -> gpus = []) /\
         get_server_info (world_of_host host_without_gpu) alice "secret" initial =
         Some (Ret (Success gpus storage), st')).
Proof.
  apply (get_server_info_without_gpu (world_of_host host_without_gpu) alice "secret"
           initial df_output);
    reflexivity.
Defined.

(** C6, as the claim words it, fails: a [df -h] that fails as a command
    does, with a status and nothing written, raises nothing in
    [get_server_info], which returns a success without records and no
    failure. *)
Lemma df_error_status_is_success :
  (exists st',
     get_server_info (world_of_host host_df_exits_with_error) alice "secret" initial =
     Some (Ret (Success [] []), st')) /\
  ~ failure_returned (world_of_host host_df_exits_with_error) alice "secret" initial.
Proof.
  split.
  - eexists. vm_compute. reflexivity.
  - intros (message & st' & H). vm_compute in H. discriminate H.
Qed.

(** C6 (amended): when the connection is refused, or [df -h] raises once
    connected, [get_server_info] raises nothing and returns a failure that
    carries the message of the error and no record.  When the console
    renders that failure, the body of the loop over the targets records it
    for that target, prints it and returns, so the loop goes on with the
    targets that remain, whatever they are, exactly as it would run on them
    alone from the state reached.  The console renders the failure when the
    host and the message hold no markup. *)
Theorem get_server_info_failure_is_local :
  forall w server password st e,
    refuses (network w (clients st) server password) = Some e \/
    (refuses (network w (clients st) server password) = None /\
     run (network w (clients st) server password) "df -h" = Raise e) ->
    (exists st1,
       get_server_info w server password st = Some (Ret (Failure (str_of_exn e)), st1)) /\
    (renders w server (Failure (str_of_exn e)) ->
     exists st2,
       poll w password server st = Some (Ret tt, st2) /\
       fetched st2 = fetched st ++ [(server, Failure (str_of_exn e))] /\
       forall rest,
         for_M (server :: rest) (poll w password) st = for_M rest (poll w password) st2) /\
    (literal_text (host server) = true -> literal_text (str_of_exn e) = true ->
     renders w server (Failure (str_of_exn e))).
Proof.
  intros w server password st e H.
  assert (Hinfo : fetch_result (network w (clients st) server password) =
                  Failure (str_of_exn e)).
  { unfold fetch_result. destruct H as [->|[-> ->]]; reflexivity. }
  split; [|split].
  - eexists. rewrite get_server_info_eq. now rewrite Hinfo.
  - intros Hrenders.
    destruct (poll_step w password server st) as (r & events & Hp & _ & Hr & _).
    rewrite Hinfo in Hp, Hr. rewrite (Hr Hrenders) in Hp.
    eexists. split; [exact Hp|]. split; [reflexivity|].
    intros rest. rewrite for_M_cons. now rewrite Hp.
  - apply renders_failure.
Qed.

Lemma get_server_info_failure_is_local_witness :
  (exists st1,
     get_server_info (world_of_host host_df_fails) alice "secret" initial =
       Some (Ret (Failure "Channel closed."), st1)) /\
  (renders (world_of_host host_df_fails) alice (Failure "Channel closed.") ->
   exists st2,
     poll (world_of_host host_df_fails) "secret" alice initial = Some (Ret tt, st2) /\
     fetched st2 = fetched initial ++ [(alice, Failure "Channel closed.")] /\
     forall rest,
       for_M (alice :: rest) (poll (world_of_host host_df_fails) "secret") initial =
       for_M rest (poll (world_of_host host_df_fails) "secret") st2) /\
  (literal_text (host alice) = true -> literal_text "Channel closed." = true ->
   renders (world_of_host host_df_fails) alice (Failure "Channel closed.")).
Proof.
  apply (get_server_info_failure_is_local (world_of_host host_df_fails) alice "secret"
           initial (SSHException "Channel closed.")).
  right. split; reflexivity.
Defined.

(** ** C2: the session *)

Lemma open_sessions_from_app opened log log' :
  open_sessions_from opened (log ++ log') =
  open_sessions_from (open_sessions_from opened log) log'.
Proof.
  revert opened. induction log as [|ev log IH]; intros opened; [reflexivity|].
  destruct ev; cbn [app open_sessions_from]; apply IH.
Qed.

(** X3: where the code closes the session: when the connection succeeds
    and [df -h] returns, the session that [get_server_info] opened is closed
    when it returns. *)
Theorem session_closed_after_success :
  forall w server password st out,
    refuses (network w (clients st) server password) = None ->
    run (network w (clients st) server password) "df -h" = Ret out ->
    exists info st',
      get_server_info w server password st = Some (Ret info, st') /\
      ~ In (clients st) (open_sessions (ssh_log st')).
Proof.
  intros w server password st out Hc Hdf. eexists. eexists. split; [apply get_server_info_eq|].
  unfold after_fetch, session_events, open_sessions. cbn [ssh_log].
  rewrite Hc, Hdf, open_sessions_from_app. cbn.
  intros H. apply filter_In in H as [_ H].
  now rewrite Nat.eqb_refl in H.
Qed.

(** X4: where it does not: when the connection succeeds and [df -h] raises,
    [get_server_info] returns the failure and leaves its session open: the
    sessions open afterwards are those open before and the new one. *)
Theorem session_open_after_failed_df :
  forall w server password st e,
    refuses (network w (clients st) server password) = None ->
    run (network w (clients st) server password) "df -h" = Raise e ->
    exists st',
      get_server_info w server password st = Some (Ret (Failure (str_of_exn e)), st') /\
      open_sessions (ssh_log st') = open_sessions (ssh_log st) ++ [clients st].
Proof.
  intros w server password st e Hc Hdf. eexists. split.
  - rewrite get_server_info_eq. unfold fetch_result. now rewrite Hc, Hdf.
  - unfold after_fetch, session_events, open_sessions. cbn [ssh_log].
    now rewrite Hc, Hdf, open_sessions_from_app.
Qed.

(** C2 fails on the code: on a host that accepts the connection and on which
    [df -h] raises, [get_server_info] returns the failure and the log of the
    session holds its opening and the two commands but no closing: the
    session is still open when the function has returned. *)
Theorem session_left_open_when_df_fails :
  exists st',
    get_server_info (world_of_host host_df_fails) alice "secret" initial =
      Some (Ret (Failure "Channel closed."), st') /\
    ssh_log st' = [Connected 0 alice; Executed 0 "nvidia-smi"; Executed 0 "df -h"] /\
    open_sessions (ssh_log st') = [0].
Proof.
  eexists. split; [reflexivity|]. split; reflexivity.
Qed.

(** ** C1, C9: the poll cycle of main *)

(** C1 fails on the code: with two targets of which the first mounts a share
    whose name holds a space, the fifth field of that row of [df -h] is not
    a percentage, rendering the first result raises ValueError, the error
    leaves the loop and [main], and the second target is never polled: one
    result for two targets. *)
Theorem main_stops_at_unrenderable_result :
  read_zshrc_aliases world_with_share initial = Some (Ret [alice; bob], initial) /\
  exists st',
    main world_with_share 1 initial =
      Some (Raise (ValueError "invalid literal for int() with base 10: '900G'"), st') /\
    fetched st' =
      [(alice,
        Success []
          [mkStorage "/dev/sda1" "100G" "91G" "9G" "91%" "/";
           mkStorage "//nas/my" "share" "1.0T" "100G" "900G" "10%"])] /\
    clients st' = 1.
Proof.
  split; [vm_compute; reflexivity|].
  eexists. split; [vm_compute; reflexivity|]. split; reflexivity.
Qed.

(** C9 fails on the code, by the defect of C1: with the same two targets,
    and whatever number of passes the loop is allowed, here five, [main]
    starts one pass and never a second, but that pass is no cycle over the
    list: it ends with the rendering error of the first target, whose
    session is the only one of the run, and the second target is not
    polled. *)
Theorem main_cycle_cut_short :
  read_zshrc_aliases world_with_share initial = Some (Ret [alice; bob], initial) /\
  exists msg st',
    main world_with_share 5 initial = Some (Raise (ValueError msg), st') /\
    passes (console st') = 1 /\
    map fst (fetched st') = [alice] /\
    ssh_log st' = [Connected 0 alice; Executed 0 "nvidia-smi"; Executed 0 "df -h"; Closed 0].
Proof.
  split; [vm_compute; reflexivity|].
  eexists. eexists. split; [vm_compute; reflexivity|]. repeat split.
Qed.

(** ** Further properties *)

(** X1: [get_server_info] always returns and never raises: whatever the host
    does, the caller gets a result; one SSH client was created, nothing was
    printed. *)
Theorem get_server_info_returns :
  forall w server password st,
  exists info st',
    get_server_info w server password st = Some (Ret info, st') /\
    console st' = console st /\
    clients st' = S (clients st) /\
    fetched st' = fetched st.
Proof.
  intros w server password st. eexists. eexists.
  split; [apply get_server_info_eq|]. repeat split.
Qed.

Lemma session_closed_after_success_witness :
  exists info st',
    get_server_info (world_of_host host_without_gpu) alice "secret" initial =
      Some (Ret info, st') /\
    ~ In (clients initial) (open_sessions (ssh_log st')).
Proof.
  apply (session_closed_after_success (world_of_host host_without_gpu) alice "secret"
           initial df_output); reflexivity.
Defined.

Lemma session_open_after_failed_df_witness :
  exists st',
    get_server_info (world_of_host host_df_fails) alice "secret" initial =
      Some (Ret (Failure "Channel closed."), st') /\
    open_sessions (ssh_log st') = open_sessions (ssh_log initial) ++ [clients initial].
Proof.
  apply (session_open_after_failed_df (world_of_host host_df_fails) alice "secret"
           initial (SSHException "Channel closed.")); reflexivity.
Defined.

Lemma for_each_storage_rows storage :
  forall table,
    (exists table',
       for_each storage
         (fun disk table =>
            (p <- int (Str.rstrip_by (Ascii.eqb "%") (use_percent disk)) ;;
             let style := percent_style p in
             Ret (add_row table
                    [filesystem disk; size disk; used disk; available disk;
                     "[" ++ style ++ "]" ++ use_percent disk ++ "[/" ++ style ++ "]";
                     mounted_on disk]))%result%string)
         table = Ret table') <->
    Forall percent_readable storage.
Proof.
  induction storage as [|disk storage IH]; intros table.
  - split; [constructor | intros _; now exists table].
  - cbn [for_each]. unfold rbind at 1.
    destruct (int (Str.rstrip_by (Ascii.eqb "%") (use_percent disk))) as [p|e] eqn:E.
    + rewrite IH. split.
      * intros H. constructor; [now exists p | exact H].
      * intros H. now inversion H.
    + split.
      * intros [t Ht]. discriminate.
      * intros H. inversion H as [|? ? [p Hp] _]. congruence.
Qed.

(** X5: the storage table can be built exactly when the use_percent of
    every row, its trailing percent signs removed, is an integer literal
    that [int] converts; any other row makes [create_storage_table], and so
    the rendering of the result, raise. *)
Theorem create_storage_table_readable :
  forall storage,
    (exists table, create_storage_table storage = Ret table) <->
    Forall percent_readable storage.
Proof.
  intros storage. unfold create_storage_table. apply for_each_storage_rows.
Qed.

(** ** A table of three rows *)

Section Fields.

Variable p : ascii -> bool.

Lemma rstrip_by_empty_all s :
  Str.rstrip_by p s = EmptyString -> Str.all_chars p s = true.
Proof.
  induction s as [|c s IH]; [reflexivity|].
  rewrite rstrip_by_cons.
  destruct (Str.rstrip_by p s) as [|c' r]; [|discriminate].
  destruct (p c) eqn:Pc; [|discriminate].
  intros _. simpl. now rewrite Pc, IH.
Qed.

Lemma rstrip_by_head c s a r :
  Str.rstrip_by p (String c s) = String a r -> a = c.
Proof.
  rewrite rstrip_by_cons.
  destruct (Str.rstrip_by p s) as [|c' r'].
  - destruct (p c); [discriminate|]. now intros [= <- _].
  - now intros [= <- _].
Qed.

Lemma rstrip_by_app s t :
  Str.rstrip_by p t <> EmptyString ->
  Str.rstrip_by p (s ++ t) = (s ++ Str.rstrip_by p t)%string.
Proof.
  intros Ht. induction s as [|c s IH]; [reflexivity|].
  cbn [append]. rewrite rstrip_by_cons, IH.
  destruct (s ++ Str.rstrip_by p t)%string eqn:E; [|reflexivity].
  destruct s; [contradiction | discriminate].
Qed.

Lemma rstrip_by_cons_not_empty c s :
  Str.rstrip_by p s <> EmptyString -> Str.rstrip_by p (String c s) <> EmptyString.
Proof.
  intros H. rewrite rstrip_by_cons.
  destruct (Str.rstrip_by p s); [contradiction | discriminate].
Qed.

(** Stripping the end of a text strips the end of its last line. *)
Lemma rstrip_by_before x c y :
  Str.rstrip_by p y <> EmptyString ->
  Str.rstrip_by p (x ++ String c y) = (x ++ String c (Str.rstrip_by p y))%string.
Proof.
  intros H. rewrite rstrip_by_app by now apply rstrip_by_cons_not_empty.
  rewrite rstrip_by_cons.
  destruct (Str.rstrip_by p y); [contradiction | reflexivity].
Qed.

Lemma rstrip_by_before_not_empty x c y :
  Str.rstrip_by p y <> EmptyString ->
  Str.rstrip_by p (x ++ String c y) <> EmptyString.
Proof.
  intros H. rewrite rstrip_by_before by assumption.
  destruct x; discriminate.
Qed.

Lemma all_chars_rstrip_by q s :
  Str.all_chars q s = true -> Str.all_chars q (Str.rstrip_by p s) = true.
Proof.
  induction s as [|c s IH]; [reflexivity|].
  cbn [Str.all_chars]. intros H. apply andb_true_iff in H as [Hc Hs].
  rewrite rstrip_by_cons. specialize (IH Hs).
  destruct (Str.rstrip_by p s) as [|c' r].
  - destruct (p c); [reflexivity|]. simpl. now rewrite Hc.
  - cbn [Str.all_chars] in *. now rewrite Hc, IH.
Qed.

End Fields.

Lemma split_ws_all_space s : Str.all_chars Str.isspace s = true -> Str.split_ws s = [].
Proof.
  induction s as [|c s IH]; [reflexivity|].
  cbn [Str.all_chars]. intros H. apply andb_true_iff in H as [Hc Hs].
  cbn [Str.split_ws]. rewrite Hc. auto.
Qed.

Lemma split_ws_cons c s :
  Str.split_ws (String c s) =
  if Str.isspace c then Str.split_ws s
  else match s with
       | EmptyString => [String c EmptyString]
       | String c' _ =>
           if Str.isspace c' then String c EmptyString :: Str.split_ws s
           else match Str.split_ws s with
                | w :: ws => String c w :: ws
                | [] => [String c EmptyString]
                end
       end.
Proof. reflexivity. Qed.

(** Whitespace at the end of a line is no field. *)
Lemma split_ws_rstrip s : Str.split_ws (Str.rstrip_by Str.isspace s) = Str.split_ws s.
Proof.
  induction s as [|c s IH]; [reflexivity|].
  rewrite rstrip_by_cons.
  destruct (Str.rstrip_by Str.isspace s) as [|a r] eqn:E.
  - apply rstrip_by_empty_all in E.
    rewrite split_ws_cons, (split_ws_all_space _ E).
    destruct (Str.isspace c) eqn:Hc; [reflexivity|].
    cbn [Str.split_ws]. rewrite Hc.
    destruct s as [|c' s]; [reflexivity|].
    cbn [Str.all_chars] in E. apply andb_true_iff in E as [-> _]. reflexivity.
  - rewrite (split_ws_cons c (String a r)), (split_ws_cons c s), IH.
    destruct (Str.isspace c); [reflexivity|].
    destruct s as [|c' s]; [discriminate|].
    now rewrite (rstrip_by_head _ _ _ _ _ E).
Qed.

Lemma blank_no_field line : blank line = true -> Str.split_ws line = [].
Proof.
  unfold blank, Str.strip. intros H.
  destruct (Str.lstrip_by Str.isspace (Str.rstrip_by Str.isspace line)) eqn:E;
    [|discriminate].
  apply lstrip_by_empty_all in E. apply rstrip_by_all in E.
  rewrite rstrip_by_idem in E.
  apply split_ws_all_space. now apply rstrip_by_empty_all in E.
Qed.

Lemma fields_not_blank line n : S n <= length (Str.split_ws line) -> blank line = false.
Proof.
  intros H. destruct (blank line) eqn:E; [|reflexivity].
  rewrite (blank_no_field _ E) in H. simpl in H. lia.
Qed.

Lemma not_blank_rstrip line :
  blank line = false -> Str.rstrip_by Str.isspace line <> EmptyString.
Proof.
  unfold blank, Str.strip. intros H E. now rewrite E in H.
Qed.

Lemma not_blank_lstrip line :
  blank line = false -> Str.lstrip_by Str.isspace line <> EmptyString.
Proof.
  unfold blank, Str.strip. intros H E.
  apply lstrip_by_empty_all in E.
  now rewrite (rstrip_by_all _ _ E) in H.
Qed.

Lemma split_one_line sep s :
  Str.all_chars (differs_from sep) s = true -> Str.split sep s = [s].
Proof.
  induction s as [|c s IH]; [reflexivity|].
  cbn [Str.all_chars]. intros H. apply andb_true_iff in H as [Hc Hs].
  unfold differs_from in Hc. apply negb_true_iff in Hc.
  cbn [Str.split]. now rewrite Hc, (IH Hs).
Qed.

Lemma records_of_cons {R} (row : string -> option R) line lines :
  records_of row (line :: lines) =
  (if blank line then []
   else match row line with Some r => [r] | None => [] end) ++ records_of row lines.
Proof. reflexivity. Qed.

Lemma gpu_row_some line :
  13 <= length (Str.split_ws line) -> exists r, gpu_row line = Some r.
Proof.
  intros H. destruct (gpu_row line) as [r|] eqn:E; [now exists r|].
  apply gpu_row_none in E. lia.
Qed.

(** X6: an output made of two header lines, the first not blank, a blank
    line and three rows of at least 13 fields gives exactly three records,
    those of the three rows in their order, each made of the fields 1, 2, 8,
    10 and 12 of its row. *)
Theorem parse_gpu_info_three_rows :
  forall h1 h2 b r1 r2 r3,
    Forall (fun line => Str.all_chars (differs_from Str.newline) line = true)
           [h1; h2; b; r1; r2; r3] ->
    blank h1 = false ->
    blank b = true ->
    13 <= length (Str.split_ws r1) ->
    13 <= length (Str.split_ws r2) ->
    13 <= length (Str.split_ws r3) ->
    exists g1 g2 g3,
      gpu_row r1 = Some g1 /\ gpu_row r2 = Some g2 /\ gpu_row r3 = Some g3 /\
      parse_gpu_info (h1 ++ nl ++ h2 ++ nl ++ b ++ nl ++ r1 ++ nl ++ r2 ++ nl ++ r3) =
      Ret [g1; g2; g3].
Proof.
  intros h1 h2 b r1 r2 r3 Hlines Hh1 Hb H1 H2 H3.
  destruct (gpu_row_some _ H1) as [g1 G1].
  destruct (gpu_row_some _ H2) as [g2 G2].
  destruct (gpu_row_some _ H3) as [g3 G3].
  exists g1, g2, g3. repeat (split; [assumption|]).
  repeat match goal with
         | H : Forall _ (_ :: _) |- _ => inversion_clear H
         end.
  pose proof (fields_not_blank _ _ H1) as B1.
  pose proof (fields_not_blank _ _ H2) as B2.
  pose proof (fields_not_blank _ _ H3) as B3.
  pose proof (not_blank_rstrip _ B3) as E3.
  rewrite parse_gpu_info_eq. f_equal.
  unfold gpu_table, table_of, Str.strip. cbn [nl append].
  rewrite !rstrip_by_before
    by (repeat apply rstrip_by_before_not_empty; exact E3).
  rewrite lstrip_by_app by now apply not_blank_lstrip.
  rewrite !split_line by (assumption || now apply all_chars_lstrip_by).
  rewrite split_one_line by now apply all_chars_rstrip_by.
  cbn [skipn]. rewrite !records_of_cons.
  rewrite Hb, B1, B2, G1, G2.
  assert (B3' : blank (Str.rstrip_by Str.isspace r3) = false).
  { apply fields_not_blank with (n := 12). now rewrite split_ws_rstrip. }
  rewrite B3'. unfold gpu_row in *. rewrite split_ws_rstrip, G3.
  reflexivity.
Qed.

Lemma parse_gpu_info_three_rows_witness :
  exists g1 g2 g3,
    gpu_row gpu_line_0 = Some g1 /\ gpu_row gpu_line_1 = Some g2 /\
    gpu_row gpu_line_2 = Some g3 /\
    parse_gpu_info
      (gpu_header_1 ++ nl ++ gpu_header_2 ++ nl ++ EmptyString ++ nl ++
       gpu_line_0 ++ nl ++ gpu_line_1 ++ nl ++ gpu_line_2) =
    Ret [g1; g2; g3].
Proof.
  apply (parse_gpu_info_three_rows gpu_header_1 gpu_header_2 EmptyString
           gpu_line_0 gpu_line_1 gpu_line_2);
    [repeat constructor | reflexivity | reflexivity | cbv; lia | cbv; lia | cbv; lia].
Defined.

(** * Further properties of the parsers *)

(** ** The lines of a stripped text *)

Lemma all_space_lines s :
  Str.all_chars Str.isspace s = true ->
  Forall (fun line => Str.all_chars Str.isspace line = true) (Str.split Str.newline s).
Proof.
  induction s as [|c s IH]; [repeat constructor|].
  cbn [Str.all_chars Str.split]. intros H. apply andb_true_iff in H as [Hc Hs].
  specialize (IH Hs).
  destruct (Ascii.eqb c Str.newline); [now constructor|].
  destruct (Str.split Str.newline s) as [|l ls]; [repeat constructor; simpl; now rewrite Hc|].
  inversion_clear IH. constructor; [|assumption].
  simpl. now rewrite Hc.
Qed.

Lemma all_space_blank line : Str.all_chars Str.isspace line = true -> blank line = true.
Proof.
  intros H. unfold blank, Str.strip. now rewrite (rstrip_by_all _ _ H).
Qed.

Lemma rstripped_last_eq x y after :
  Str.rstrip_by Str.isspace x = y ->
  Forall (fun line => Str.all_chars Str.isspace line = true) after ->
  rstripped [y] (x :: after).
Proof. intros <-. apply rstripped_last. Qed.

Lemma not_space_not_newline c : Str.isspace c = false -> Ascii.eqb c Str.newline = false.
Proof.
  intros H. destruct (Ascii.eqb_spec c Str.newline) as [->|]; [discriminate | reflexivity].
Qed.

(** Removing the whitespace at the end of a text changes its lines as
    [rstripped] says. *)
Lemma split_rstrip s :
  rstripped (Str.split Str.newline (Str.rstrip_by Str.isspace s)) (Str.split Str.newline s).
Proof.
  induction s as [|c s IH].
  - apply rstripped_last_eq; [reflexivity | constructor].
  - rewrite rstrip_by_cons.
    destruct (Str.rstrip_by Str.isspace s) as [|a r] eqn:E.
    + apply rstrip_by_empty_all in E.
      pose proof (all_space_lines _ E) as Hlines.
      cbn [Str.split].
      destruct (Str.isspace c) eqn:Hc.
      * destruct (Ascii.eqb c Str.newline).
        -- apply rstripped_last_eq; [reflexivity | assumption].
        -- destruct (Str.split Str.newline s) as [|l ls] eqn:Es;
             [now apply split_not_nil in Es|].
           inversion_clear Hlines.
           apply rstripped_last_eq; [|assumption].
           apply rstrip_by_all. simpl. now rewrite Hc.
      * rewrite (not_space_not_newline _ Hc).
        cbn [Str.split]. rewrite (not_space_not_newline _ Hc). cbn [Str.split].
        destruct (Str.split Str.newline s) as [|l ls] eqn:Es;
          [now apply split_not_nil in Es|].
        inversion_clear Hlines.
        apply rstripped_last_eq; [|assumption].
        rewrite rstrip_by_cons, rstrip_by_all by assumption. now rewrite Hc.
    + remember (String a r) as t eqn:Et.
      cbn [Str.split].
      destruct (Ascii.eqb c Str.newline); [now apply rstripped_cons|].
      pose proof (join_split Str.newline t) as Hj.
      destruct IH as [x after Hafter | x lines' lines IH].
      * cbn [Str.join] in Hj.
        apply rstripped_last_eq; [|assumption].
        rewrite rstrip_by_cons, Hj, Et. reflexivity.
      * now apply rstripped_cons.
Qed.

Lemma first_line_cons c s :
  Ascii.eqb c Str.newline = false -> first_line (String c s) = String c (first_line s).
Proof.
  intros H. unfold first_line. cbn [Str.split]. rewrite H.
  destruct (Str.split Str.newline s) eqn:E; [|reflexivity].
  now apply split_not_nil in E.
Qed.

(** Removing the whitespace at the start of a text whose first line is not
    blank changes that line alone. *)
Lemma split_lstrip t :
  Str.lstrip_by Str.isspace (first_line t) <> EmptyString ->
  Str.split Str.newline (Str.lstrip_by Str.isspace t) =
  Str.lstrip_by Str.isspace (first_line t) :: tl (Str.split Str.newline t).
Proof.
  induction t as [|c t IH]; [now intros H|].
  destruct (Ascii.eqb c Str.newline) eqn:Hc.
  - unfold first_line. cbn [Str.split]. rewrite Hc. now intros H.
  - rewrite (first_line_cons _ _ Hc). cbn [Str.lstrip_by Str.split]. rewrite Hc.
    destruct (Str.isspace c).
    + intros H. rewrite (IH H). unfold first_line.
      destruct (Str.split Str.newline t) eqn:E; [now apply split_not_nil in E|].
      reflexivity.
    + intros _. cbn [Str.split]. rewrite Hc. unfold first_line.
      destruct (Str.split Str.newline t) eqn:E; [now apply split_not_nil in E|].
      reflexivity.
Qed.

Lemma blank_rstrip line : blank (Str.rstrip_by Str.isspace line) = blank line.
Proof. unfold blank, Str.strip. now rewrite rstrip_by_idem. Qed.


Lemma records_of_all_space {R} (row : string -> option R) lines :
  Forall (fun line => Str.all_chars Str.isspace line = true) lines ->
  records_of row lines = [].
Proof.
  induction 1 as [|line lines Hline _ IH]; [reflexivity|].
  rewrite records_of_cons, IH, (all_space_blank _ Hline). reflexivity.
Qed.

Lemma Forall_skipn {A} (P : A -> Prop) k xs : Forall P xs -> Forall P (skipn k xs).
Proof.
  revert xs. induction k as [|k IH]; intros xs H; [exact H|].
  destruct H; [constructor | now apply IH].
Qed.

Section RowsOfLines.

Variable R : Type.
Variable row : string -> option R.
Hypothesis row_rstrip : forall line, row (Str.rstrip_by Str.isspace line) = row line.

(** The whitespace at the end of a text gives no record and takes none
    away, wherever the header ends. *)
Lemma records_of_rstripped lines' lines :
  rstripped lines' lines ->
  forall k, records_of row (skipn k lines') = records_of row (skipn k lines).
Proof.
  induction 1 as [x after Hafter | x lines' lines _ IH]; intros [|k].
  - cbn [skipn]. rewrite !records_of_cons, blank_rstrip, row_rstrip.
    now rewrite (records_of_all_space _ _ Hafter).
  - cbn [skipn]. rewrite skipn_nil.
    symmetry. apply records_of_all_space. now apply Forall_skipn.
  - specialize (IH 0). cbn [skipn] in *. rewrite !records_of_cons. now rewrite IH.
  - cbn [skipn]. apply IH.
Qed.

Lemma rstripped_first_line_not_blank lines' lines :
  rstripped lines' lines ->
  blank (hd EmptyString lines) = false ->
  Str.lstrip_by Str.isspace (hd EmptyString lines') <> EmptyString.
Proof.
  intros [x after _ | x l' l _]; cbn [hd]; intros H.
  - unfold blank, Str.strip in H. now intros E; rewrite E in H.
  - now apply not_blank_lstrip.
Qed.

(** When the first line of a text is not blank, stripping the text changes
    nothing to the table read under a header of at least one line. *)
Lemma table_of_strip k text :
  blank (first_line text) = false ->
  table_of (S k) row (Str.strip text) = table_of (S k) row text.
Proof.
  intros Hfirst. unfold table_of, Str.strip.
  pose proof (split_rstrip text) as Hr.
  rewrite split_lstrip
    by (unfold first_line; eapply rstripped_first_line_not_blank; eassumption).
  rewrite <- (records_of_rstripped _ _ Hr (S k)).
  destruct Hr; reflexivity.
Qed.

End RowsOfLines.

Lemma gpu_row_rstrip line : gpu_row (Str.rstrip_by Str.isspace line) = gpu_row line.
Proof. unfold gpu_row. now rewrite split_ws_rstrip. Qed.

Lemma storage_row_rstrip line :
  storage_row (Str.rstrip_by Str.isspace line) = storage_row line.
Proof. unfold storage_row. now rewrite split_ws_rstrip. Qed.

Lemma parsers_read_lines_as_they_are_aux text :
  blank (first_line text) = false ->
  parse_gpu_info text =
    Ret (records_of gpu_row (skipn 2 (Str.split Str.newline text))) /\
  parse_storage_info text =
    Ret (records_of storage_row (skipn 1 (Str.split Str.newline text))).
Proof.
  intros H. split.
  - rewrite parse_gpu_info_eq. f_equal.
    exact (table_of_strip _ gpu_row gpu_row_rstrip 1 text H).
  - rewrite parse_storage_info_eq. f_equal.
    exact (table_of_strip _ storage_row storage_row_rstrip 0 text H).
Qed.

(** X7: when the first line of the output is not blank, the parsers read
    the lines of the output as they are: [parse_gpu_info] discards the first
    two lines of the input and [parse_storage_info] the first, and the
    records are those of the other lines, in order; whitespace and blank
    lines at the end of the output change nothing. *)
Theorem parsers_read_lines_as_they_are :
  forall text,
    blank (first_line text) = false ->
    parse_gpu_info text =
      Ret (records_of gpu_row (skipn 2 (Str.split Str.newline text))) /\
    parse_storage_info text =
      Ret (records_of storage_row (skipn 1 (Str.split Str.newline text))).
Proof.
  intros text H. now apply parsers_read_lines_as_they_are_aux.
Qed.

Lemma parsers_read_lines_as_they_are_witness :
  parse_gpu_info
    (gpu_header_1 ++ nl ++ gpu_header_2 ++ nl ++ gpu_line_0 ++ nl ++ nl) =
    Ret (records_of gpu_row
           (skipn 2 (Str.split Str.newline
                       (gpu_header_1 ++ nl ++ gpu_header_2 ++ nl ++ gpu_line_0 ++ nl ++ nl)))) /\
  parse_storage_info
    (gpu_header_1 ++ nl ++ gpu_header_2 ++ nl ++ gpu_line_0 ++ nl ++ nl) =
    Ret (records_of storage_row
           (skipn 1 (Str.split Str.newline
                       (gpu_header_1 ++ nl ++ gpu_header_2 ++ nl ++ gpu_line_0 ++ nl ++ nl)))).
Proof.
  apply (parsers_read_lines_as_they_are
           (gpu_header_1 ++ nl ++ gpu_header_2 ++ nl ++ gpu_line_0 ++ nl ++ nl)).
  reflexivity.
Defined.

(** ** The fields of the records *)

Lemma split_ws_fields s : Forall field (Str.split_ws s).
Proof.
  induction s as [|c s IH]; [constructor|].
  rewrite split_ws_cons.
  destruct (Str.isspace c) eqn:Hc; [exact IH|].
  assert (Hone : field (String c EmptyString)).
  { split; [discriminate | simpl; now rewrite Hc]. }
  destruct s as [|c' s]; [constructor; [exact Hone | constructor]|].
  destruct (Str.isspace c'); [now constructor|].
  destruct (Str.split_ws (String c' s)) as [|w ws];
    [constructor; [exact Hone | constructor]|].
  inversion_clear IH as [|? ? [_ Hw] Hws].
  constructor; [|assumption].
  split; [discriminate | simpl; now rewrite Hc, Hw].
Qed.

Lemma nth_error_field s i f : nth_error (Str.split_ws s) i = Some f -> field f.
Proof.
  intros H. apply nth_error_In in H.
  revert f H. apply Forall_forall, split_ws_fields.
Qed.

Lemma records_of_Forall {R} (row : string -> option R) (P : R -> Prop) lines :
  (forall line r, row line = Some r -> P r) -> Forall P (records_of row lines).
Proof.
  intros Hrow. induction lines as [|line lines IH]; [constructor|].
  rewrite records_of_cons. apply Forall_app. split; [|exact IH].
  destruct (blank line); [constructor|].
  destruct (row line) as [r|] eqn:E; [|constructor].
  repeat constructor. eauto.
Qed.

(** X8: every field of every record that the parsers return is a string
    that is not empty and holds no whitespace, whatever the input. *)
Theorem parsed_fields_hold_no_whitespace :
  forall text,
    (exists gpus, parse_gpu_info text = Ret gpus /\ Forall gpu_fields gpus) /\
    (exists storage, parse_storage_info text = Ret storage /\ Forall storage_fields storage).
Proof.
  intros text. unfold gpu_fields, storage_fields.
  split; eexists; (split; [apply parse_gpu_info_eq || apply parse_storage_info_eq|]).
  - apply records_of_Forall. intros line r H.
    apply gpu_row_fields in H as (_ & H1 & H2 & H3 & H4 & H5).
    repeat split; eapply nth_error_field; eassumption.
  - apply records_of_Forall. intros line r H.
    apply storage_row_fields in H as (_ & H0 & H1 & H2 & H3 & H4 & H5).
    repeat split; eapply nth_error_field; eassumption.
Qed.

(** ** One more row *)

Lemma split_app_line sep s line :
  Str.all_chars (differs_from sep) line = true ->
  Str.split sep (s ++ String sep line) = Str.split sep s ++ [line].
Proof.
  intros Hline. induction s as [|c s IH].
  - cbn [append Str.split]. rewrite Ascii.eqb_refl. now rewrite split_one_line.
  - cbn [append Str.split]. rewrite IH.
    destruct (Ascii.eqb c sep); [reflexivity|].
    destruct (Str.split sep s) as [|l ls] eqn:E; [now apply split_not_nil in E|].
    reflexivity.
Qed.

Lemma first_line_app_line text line :
  Str.all_chars (differs_from Str.newline) line = true ->
  first_line (text ++ String Str.newline line) = first_line text.
Proof.
  intros H. unfold first_line. rewrite split_app_line by assumption.
  destruct (Str.split Str.newline text) as [|l ls] eqn:E; [now apply split_not_nil in E|].
  reflexivity.
Qed.

Lemma records_of_app {R} (row : string -> option R) lines lines' :
  records_of row (lines ++ lines') = records_of row lines ++ records_of row lines'.
Proof. unfold records_of. apply flat_map_app. Qed.

Lemma skipn_app_line {A} k (xs : list A) x :
  k <= length xs -> skipn k (xs ++ [x]) = skipn k xs ++ [x].
Proof.
  intros H. rewrite skipn_app.
  replace (k - length xs) with 0 by lia. reflexivity.
Qed.

(** X9: a line added under an output adds its record and changes no other:
    when the first line of the output is not blank, the records of the
    output followed by one more line are the records of the output, then
    the record of that line if it gives one (for the GPU table, once the
    output holds its two header lines). *)
Theorem parsers_append_a_row :
  forall text line,
    blank (first_line text) = false ->
    Str.all_chars (differs_from Str.newline) line = true ->
    (2 <= length (Str.split Str.newline text) ->
     exists gpus,
       parse_gpu_info text = Ret gpus /\
       parse_gpu_info (text ++ nl ++ line) = Ret (gpus ++ records_of gpu_row [line])) /\
    (exists storage,
       parse_storage_info text = Ret storage /\
       parse_storage_info (text ++ nl ++ line) =
         Ret (storage ++ records_of storage_row [line])).
Proof.
  intros text line Hfirst Hline.
  assert (Hfirst' : blank (first_line (text ++ nl ++ line)) = false).
  { cbn [nl append]. now rewrite first_line_app_line. }
  destruct (parsers_read_lines_as_they_are_aux text Hfirst) as [G S].
  destruct (parsers_read_lines_as_they_are_aux _ Hfirst') as [G' S'].
  cbn [nl append] in G', S'. rewrite split_app_line in G', S' by assumption.
  split.
  - intros Hlen. eexists. split; [exact G|].
    cbn [nl append]. rewrite G'. now rewrite skipn_app_line, records_of_app.
  - eexists. split; [exact S|].
    cbn [nl append]. rewrite S'. rewrite skipn_app_line, records_of_app; [reflexivity|].
    destruct (Str.split Str.newline text) eqn:E; [now apply split_not_nil in E|].
    simpl. lia.
Qed.

Lemma parsers_append_a_row_witness :
  (2 <= length (Str.split Str.newline (gpu_header_1 ++ nl ++ gpu_header_2 ++ nl ++ gpu_line_0)) ->
   exists gpus,
     parse_gpu_info (gpu_header_1 ++ nl ++ gpu_header_2 ++ nl ++ gpu_line_0) = Ret gpus /\
     parse_gpu_info ((gpu_header_1 ++ nl ++ gpu_header_2 ++ nl ++ gpu_line_0) ++ nl ++ gpu_line_1) =
       Ret (gpus ++ records_of gpu_row [gpu_line_1])) /\
  (exists storage,
     parse_storage_info (gpu_header_1 ++ nl ++ gpu_header_2 ++ nl ++ gpu_line_0) = Ret storage /\
     parse_storage_info ((gpu_header_1 ++ nl ++ gpu_header_2 ++ nl ++ gpu_line_0) ++ nl ++ gpu_line_1) =
       Ret (storage ++ records_of storage_row [gpu_line_1])).
Proof.
  apply (parsers_append_a_row (gpu_header_1 ++ nl ++ gpu_header_2 ++ nl ++ gpu_line_0)
           gpu_line_1); reflexivity.
Defined.

(** ** Writing a row and reading it back *)

Lemma split_ws_field f : field f -> Str.split_ws f = [f].
Proof.
  intros [Hne Hf]. induction f as [|c f IH]; [congruence|].
  cbn [Str.all_chars] in Hf. apply andb_true_iff in Hf as [Hc Hf].
  apply negb_true_iff in Hc. rewrite split_ws_cons, Hc.
  destruct f as [|c' f]; [reflexivity|].
  rewrite IH by (discriminate || assumption).
  cbn [Str.all_chars] in Hf. apply andb_true_iff in Hf as [Hc' _].
  apply negb_true_iff in Hc'. now rewrite Hc'.
Qed.

Lemma split_ws_field_then f sep rest :
  field f -> Str.isspace sep = true ->
  Str.split_ws (f ++ String sep rest) = f :: Str.split_ws rest.
Proof.
  intros [Hne Hf] Hsep. induction f as [|c f IH]; [congruence|].
  cbn [Str.all_chars] in Hf. apply andb_true_iff in Hf as [Hc Hf].
  apply negb_true_iff in Hc. cbn [append]. rewrite split_ws_cons, Hc.
  destruct f as [|c' f].
  - cbn [append]. rewrite Hsep. rewrite split_ws_cons, Hsep. reflexivity.
  - rewrite IH by (discriminate || assumption).
    cbn [Str.all_chars] in Hf. apply andb_true_iff in Hf as [Hc' _].
    apply negb_true_iff in Hc'. cbn [append]. now rewrite Hc'.
Qed.

Lemma split_ws_join fs : Forall field fs -> Str.split_ws (Str.join " " fs) = fs.
Proof.
  induction 1 as [|f fs Hf Hfs IH]; [reflexivity|].
  destruct fs as [|g fs]; [now apply split_ws_field|].
  change (Str.join " " (f :: g :: fs)) with (f ++ String " " (Str.join " " (g :: fs)))%string.
  rewrite split_ws_field_then by (assumption || reflexivity).
  now rewrite IH.
Qed.

Lemma field_one_line f : field f -> Str.all_chars (differs_from Str.newline) f = true.
Proof.
  intros [_ H]. apply all_chars_weaken with (2 := H).
  intros c Hc. apply negb_true_iff in Hc. unfold differs_from.
  now rewrite (not_space_not_newline _ Hc).
Qed.

Lemma join_fields_one_line fs :
  Forall field fs -> Str.all_chars (differs_from Str.newline) (Str.join " " fs) = true.
Proof.
  induction 1 as [|f fs Hf Hfs IH]; [reflexivity|].
  destruct fs as [|g fs]; [now apply field_one_line|].
  change (Str.join " " (f :: g :: fs)) with (f ++ String " " (Str.join " " (g :: fs)))%string.
  rewrite all_chars_app. cbn [Str.all_chars].
  now rewrite (field_one_line _ Hf), IH.
Qed.

Lemma first_line_one_line s :
  Str.all_chars (differs_from Str.newline) s = true -> first_line s = s.
Proof. intros H. unfold first_line. now rewrite split_one_line. Qed.

(** X10: a storage record whose six fields are fields, written as a row
    under a header line that is not blank, is read back as it was: that row
    gives that record and no other. *)
Theorem parse_storage_info_reads_back :
  forall header d,
    blank header = false ->
    Str.all_chars (differs_from Str.newline) header = true ->
    storage_fields d ->
    parse_storage_info (header ++ nl ++ storage_line d) = Ret [d].
Proof.
  intros header d Hblank Hheader (H0 & H1 & H2 & H3 & H4 & H5).
  assert (Hfs : Forall field [filesystem d; size d; used d; available d;
                              use_percent d; mounted_on d])
    by (repeat (apply Forall_cons; [assumption|]); apply Forall_nil).
  pose proof (join_fields_one_line _ Hfs) as Hline.
  pose proof (split_ws_join _ Hfs) as Hsplit.
  fold (storage_line d) in Hline, Hsplit.
  cbn [nl append].
  destruct (parsers_read_lines_as_they_are_aux (header ++ String Str.newline (storage_line d)))
    as [_ ->].
  - rewrite first_line_app_line by assumption.
    now rewrite first_line_one_line.
  - rewrite split_app_line, split_one_line by assumption.
    cbn [app skipn]. rewrite records_of_cons.
    rewrite (fields_not_blank _ 5) by (rewrite Hsplit; simpl; lia).
    unfold storage_row. rewrite Hsplit. destruct d. reflexivity.
Qed.

Lemma parse_storage_info_reads_back_witness :
  parse_storage_info
    ("Filesystem Size Used Avail Use% Mounted on" ++ nl ++
     storage_line (mkStorage "tmpfs" "16G" "0" "16G" "0%" "/dev/shm")) =
  Ret [mkStorage "tmpfs" "16G" "0" "16G" "0%" "/dev/shm"].
Proof.
  apply (parse_storage_info_reads_back "Filesystem Size Used Avail Use% Mounted on"
           (mkStorage "tmpfs" "16G" "0" "16G" "0%" "/dev/shm"));
    [reflexivity | reflexivity | repeat split; discriminate].
Defined.

(** ** Short and empty outputs *)

Lemma length_split_cons sep c s :
  length (Str.split sep (String c s)) =
  (if Ascii.eqb c sep then 1 else 0) + length (Str.split sep s).
Proof.
  cbn [Str.split]. destruct (Ascii.eqb c sep); [reflexivity|].
  destruct (Str.split sep s) eqn:E; [now apply split_not_nil in E | reflexivity].
Qed.

Lemma length_split_lstrip p sep t :
  length (Str.split sep (Str.lstrip_by p t)) <= length (Str.split sep t).
Proof.
  induction t as [|c t IH]; [reflexivity|].
  cbn [Str.lstrip_by]. destruct (p c); [|reflexivity].
  rewrite length_split_cons. lia.
Qed.

Lemma rstripped_length lines' lines : rstripped lines' lines -> length lines' <= length lines.
Proof. induction 1; simpl; lia. Qed.

Lemma length_records_of {R} (row : string -> option R) lines :
  length (records_of row lines) <= length lines.
Proof.
  induction lines as [|line lines IH]; [reflexivity|].
  rewrite records_of_cons, length_app. cbn [length].
  destruct (blank line); [simpl; lia|].
  destruct (row line); simpl; lia.
Qed.

Lemma length_table_of {R} (row : string -> option R) k text :
  length (table_of k row (Str.strip text)) <= length (Str.split Str.newline text) - k.
Proof.
  unfold table_of, Str.strip.
  pose proof (length_records_of row
                (skipn k (Str.split Str.newline
                            (Str.lstrip_by Str.isspace (Str.rstrip_by Str.isspace text))))) as H.
  rewrite length_skipn in H.
  pose proof (length_split_lstrip Str.isspace Str.newline
                (Str.rstrip_by Str.isspace text)).
  pose proof (rstripped_length _ _ (split_rstrip text)).
  lia.
Qed.

(** X11: the parsers give no more records than the output has lines under
    its header: at most the number of lines less two for the GPU table, less
    one for the storage table; so an output of a header alone gives none,
    and an output of whitespace alone, the empty output among them, gives
    none either, without an error. *)
Theorem parsers_on_short_outputs :
  forall text,
  exists gpus storage,
    parse_gpu_info text = Ret gpus /\
    parse_storage_info text = Ret storage /\
    length gpus <= length (Str.split Str.newline text) - 2 /\
    length storage <= length (Str.split Str.newline text) - 1 /\
    (Str.all_chars Str.isspace text = true -> gpus = [] /\ storage = []).
Proof.
  intros text. eexists. eexists.
  split; [apply parse_gpu_info_eq|]. split; [apply parse_storage_info_eq|].
  split; [apply length_table_of|]. split; [apply length_table_of|].
  intros H. unfold Str.strip. rewrite (rstrip_by_all _ _ H). split; reflexivity.
Qed.

(** * Further properties of the rendering *)

Lemma fold_add_rows {A} (cells : A -> list string) xs :
  forall table,
    fold_left (fun table x => add_row table (cells x)) xs table =
    mkTable (columns table) (rows table ++ map cells xs).
Proof.
  induction xs as [|x xs IH]; intros table; cbn [fold_left map].
  - rewrite app_nil_r. now destruct table.
  - rewrite IH. unfold add_row. cbn [columns rows]. now rewrite <- app_assoc.
Qed.

(** X12: the GPU table shows the records as they are: one row for each
    record, in order, made of the five fields of the record unchanged, under
    five columns; every row has as many cells as the table has columns. *)
Theorem create_gpu_table_shows_records :
  forall gpus,
    rows (create_gpu_table gpus) = map gpu_cells gpus /\
    map fst (columns (create_gpu_table gpus)) =
      ["GPU ID"; "Name"; "Memory Used"; "Memory Total"; "Utilization"] /\
    Forall (fun cells => length cells = length (columns (create_gpu_table gpus)))
           (rows (create_gpu_table gpus)).
Proof.
  intros gpus. unfold create_gpu_table.
  rewrite (fold_add_rows gpu_cells). cbn [rows columns app].
  repeat split. apply Forall_forall. intros cells H.
  apply in_map_iff in H as (g & <- & _). reflexivity.
Qed.

Lemma rstrip_percentage digits signs :
  Str.all_chars is_digit digits = true ->
  Str.all_chars (Ascii.eqb "%") signs = true ->
  Str.rstrip_by (Ascii.eqb "%") (digits ++ signs) = digits.
Proof.
  intros Hd Hs. rewrite rstrip_by_app_all by assumption.
  apply rstrip_by_none. apply all_chars_weaken with (2 := Hd).
  intros c Hc. destruct c as [[] [] [] [] [] [] [] []]; try reflexivity; discriminate Hc.
Qed.

Lemma int_percentage disk :
  percentage (use_percent disk) ->
  int (Str.rstrip_by (Ascii.eqb "%") (use_percent disk)) = Ret (percent_value disk).
Proof.
  intros (digits & signs & Hne & Hd & Hl & Hs & E). unfold percent_value. rewrite E.
  rewrite rstrip_percentage by assumption. now apply int_decimal.
Qed.

Lemma for_each_storage_cells storage :
  Forall (fun disk => percentage (use_percent disk)) storage ->
  forall table,
    for_each storage
      (fun disk table =>
         (p <- int (Str.rstrip_by (Ascii.eqb "%") (use_percent disk)) ;;
          let style := percent_style p in
          Ret (add_row table
                 [filesystem disk; size disk; used disk; available disk;
                  "[" ++ style ++ "]" ++ use_percent disk ++ "[/" ++ style ++ "]";
                  mounted_on disk]))%result%string)
      table =
    Ret (mkTable (columns table) (rows table ++ map storage_cells storage)).
Proof.
  induction 1 as [|disk storage Hdisk _ IH]; intros table; cbn [for_each map].
  - rewrite app_nil_r. now destruct table.
  - rewrite (int_percentage _ Hdisk). cbn [rbind]. rewrite IH.
    unfold add_row. cbn [columns rows]. now rewrite <- app_assoc.
Qed.

Lemma percent_style_thresholds p :
  (percent_style p = "red" <-> (90 < p)%Z) /\
  (percent_style p = "yellow" <-> (70 < p <= 90)%Z) /\
  (percent_style p = "green" <-> (p <= 70)%Z).
Proof.
  unfold percent_style.
  destruct (Z.ltb_spec 90 p); [|destruct (Z.ltb_spec 70 p)];
    repeat split; intros; try discriminate; try lia; reflexivity.
Qed.

(** X13: when the use_percent of every record is made of digits, no more
    than [int] converts, followed by percent signs, the storage table is
    built without error: one row for each record, in order, of six cells
    under six columns, the fields unchanged but for the use_percent, which
    is wrapped in a colour: red above 90, yellow above 70 and up to 90,
    green up to 70. *)
Theorem create_storage_table_shows_records :
  forall storage,
    Forall (fun disk => percentage (use_percent disk)) storage ->
    exists table,
      create_storage_table storage = Ret table /\
      rows table = map storage_cells storage /\
      map fst (columns table) =
        ["Filesystem"; "Size"; "Used"; "Available"; "Use%"; "Mounted on"] /\
      Forall (fun cells => length cells = length (columns table)) (rows table) /\
      forall disk,
        In disk storage ->
        (percent_style (percent_value disk) = "red" <-> (90 < percent_value disk)%Z) /\
        (percent_style (percent_value disk) = "yellow" <->
         (70 < percent_value disk <= 90)%Z) /\
        (percent_style (percent_value disk) = "green" <-> (percent_value disk <= 70)%Z).
Proof.
  intros storage H. eexists. unfold create_storage_table.
  rewrite (for_each_storage_cells _ H). cbn [rows columns app].
  repeat split; try (intros; now apply percent_style_thresholds).
  apply Forall_forall. intros cells Hc.
  apply in_map_iff in Hc as (d & <- & _). reflexivity.
Qed.

Lemma create_storage_table_shows_records_witness :
  exists table,
    create_storage_table
      [mkStorage "/dev/sda1" "100G" "91G" "9G" "91%" "/";
       mkStorage "tmpfs" "16G" "0" "16G" "0%" "/dev/shm"] = Ret table /\
    rows table =
      map storage_cells
        [mkStorage "/dev/sda1" "100G" "91G" "9G" "91%" "/";
         mkStorage "tmpfs" "16G" "0" "16G" "0%" "/dev/shm"] /\
    map fst (columns table) =
      ["Filesystem"; "Size"; "Used"; "Available"; "Use%"; "Mounted on"] /\
    Forall (fun cells => length cells = length (columns table)) (rows table) /\
    forall disk,
      In disk [mkStorage "/dev/sda1" "100G" "91G" "9G" "91%" "/";
               mkStorage "tmpfs" "16G" "0" "16G" "0%" "/dev/shm"] ->
      (percent_style (percent_value disk) = "red" <-> (90 < percent_value disk)%Z) /\
      (percent_style (percent_value disk) = "yellow" <->
       (70 < percent_value disk <= 90)%Z) /\
      (percent_style (percent_value disk) = "green" <-> (percent_value disk <= 70)%Z).
Proof.
  apply (create_storage_table_shows_records
           [mkStorage "/dev/sda1" "100G" "91G" "9G" "91%" "/";
            mkStorage "tmpfs" "16G" "0" "16G" "0%" "/dev/shm"]).
  repeat constructor.
  - exists "91", "%". repeat split; (discriminate || (unfold int_max_str_digits; cbn; lia)).
  - exists "0", "%". repeat split; (discriminate || (unfold int_max_str_digits; cbn; lia)).
Defined.

(** *** What the console accepts of the tables *)

Lemma literal_cells_accepted w cells :
  Forall (fun cell => literal_text cell = true) cells ->
  Forall (fun cell => Rich.render (rich w) cell = Ret tt) cells.
Proof. apply Forall_impl. intros cell. apply render_literal. Qed.

Lemma gpu_table_accepted w gpus :
  Forall (fun gpu => Forall (fun cell => literal_text cell = true) (gpu_cells gpu)) gpus ->
  accepted w (Grid (create_gpu_table gpus)).
Proof.
  intros H. unfold create_gpu_table. rewrite (fold_add_rows gpu_cells).
  apply grid_accepted; cbn [columns rows map fst app].
  - repeat constructor.
  - apply Forall_map. apply Forall_impl with (2 := H).
    intros gpu. apply literal_cells_accepted.
Qed.

Lemma percent_style_name p : style_name (percent_style p) = true.
Proof. unfold percent_style. now destruct (90 <? p)%Z, (70 <? p)%Z. Qed.

Lemma percent_cell_accepted w style use_percent :
  style_name style = true -> percentage use_percent ->
  Rich.render (rich w) ("[" ++ style ++ "]" ++ use_percent ++ "[/" ++ style ++ "]") = Ret tt.
Proof.
  intros Hs Hp.
  refine (render_wrapped _ [(EmptyString, style, use_percent)] EmptyString _ eq_refl).
  repeat constructor; [exact Hs|].
  now apply literal_no_markup, percentage_no_markup.
Qed.

Lemma storage_table_accepted w storage :
  Forall (fun disk =>
            percentage (use_percent disk) /\
            Forall (fun cell => literal_text cell = true)
                   [filesystem disk; size disk; used disk; available disk; mounted_on disk])
         storage ->
  exists table, create_storage_table storage = Ret table /\ accepted w (Grid table).
Proof.
  intros H. eexists. split.
  - unfold create_storage_table. apply for_each_storage_cells.
    apply Forall_impl with (2 := H). now intros disk [Hp _].
  - apply grid_accepted; cbn [columns rows map fst app].
    + repeat constructor.
    + apply Forall_map. apply Forall_impl with (2 := H).
      intros disk [Hp Hcells]. unfold storage_cells.
      pose proof (literal_cells_accepted w _ Hcells) as Hc.
      repeat match goal with
             | H : Forall _ (_ :: _) |- _ => pose proof (Forall_inv H); apply Forall_inv_tail in H
             end.
      repeat constructor; try assumption.
      apply percent_cell_accepted; [apply percent_style_name | exact Hp].
Qed.

(** The console renders a result whose texts hold no markup and whose
    percentages are percentages. *)
Lemma renders_displayable w server info :
  literal_text (host server) = true -> displayable info -> renders w server info.
Proof.
  intros Hh Hd. destruct info as [gpu_info storage_info|error];
    [|now apply renders_failure].
  destruct Hd as [Hg Hs].
  destruct (storage_table_accepted w _ Hs) as (table & Htable & Hgrid).
  split; [|eauto]. cbn [shown_for]. rewrite Htable. cbn [app].
  apply Forall_cons; [now apply server_panel_accepted|].
  apply Forall_cons; [apply gpu_header_accepted|].
  apply Forall_cons;
    [destruct gpu_info as [|gpu gpus];
     [apply no_gpu_line_accepted | now apply gpu_table_accepted]|].
  apply Forall_cons; [apply storage_header_accepted|].
  apply Forall_cons; [exact Hgrid|].
  apply Forall_cons; [apply rule_accepted | apply Forall_nil].
Qed.

Lemma shown_prefix t rs : exists rest, rs = shown t rs ++ rest.
Proof.
  induction rs as [|r rs [rest IH]]; [now exists []|].
  cbn [shown]. destruct (render_error t r) as [[]|e].
  - exists rest. cbn [app]. now rewrite <- IH.
  - now exists (r :: rs).
Qed.

Lemma shown_all t rs :
  Forall (fun r => render_error t r = Ret tt) rs -> shown t rs = rs.
Proof.
  induction 1 as [|r rs Hr _ IH]; [reflexivity|].
  cbn [shown]. now rewrite Hr, IH.
Qed.

(** X14: rendering a result only prints: it returns or raises with the
    sessions, the clients and the results kept as they were and the console
    neither cleared nor prompted.  What it prints is, in their order, the
    panel of the server and what is shown of the result, up to the first of
    them that the console cannot render; it raises nothing exactly when the
    console accepts them all and the storage table can be built, and then
    all of them are printed.  A failure is shown as its message alone, and a
    success without GPU records says that no GPU information is available.
    A result whose texts hold no markup and whose percentages are
    percentages is rendered without error, for a host that holds no
    markup. *)
Theorem display_server_info_only_prints :
  forall w server info st,
  exists r,
    display_server_info w server info st =
      Some (r, printed (map Printed (shown (rich w) (server_panel server :: shown_for info)))
                 st) /\
    (exists rest,
       server_panel server :: shown_for info =
       shown (rich w) (server_panel server :: shown_for info) ++ rest) /\
    (r = Ret tt <-> renders w server info) /\
    (r = Ret tt ->
     shown (rich w) (server_panel server :: shown_for info) =
     server_panel server :: shown_for info) /\
    (forall error,
       info = Failure error ->
       shown_for info = [Markup ("[red]Error: " ++ error ++ "[/red]")]) /\
    (forall storage_info,
       info = Success [] storage_info ->
       In (Markup "[yellow]No GPU information available[/yellow]") (shown_for info)) /\
    (literal_text (host server) = true -> displayable info -> renders w server info).
Proof.
  intros w server info st.
  destruct (display_server_info_prints w server info st) as (r & Hd & Hr).
  exists r. split; [exact Hd|]. split; [apply shown_prefix|]. split; [exact Hr|].
  split; [|split; [|split]].
  - intros H. apply Hr in H as [Hall _]. now apply shown_all.
  - now intros error ->.
  - intros storage_info ->. cbn [shown_for app]. right. left. reflexivity.
  - apply renders_displayable.
Qed.

(** * Further properties of main *)

Lemma poll_cycle_exact w password servers :
  forall st,
  exists r st' n,
    for_M servers (poll w password) st = Some (r, st') /\
    n <= length servers /\
    ssh_log st' = ssh_log st ++ sessions_from w password (clients st) (firstn n servers) /\
    clients st' = clients st + n /\
    fetched st' = fetched st ++ results_from w password (clients st) (firstn n servers) /\
    passes (console st') = passes (console st) /\
    (r = Ret tt -> n = length servers) /\
    (servers <> [] -> 1 <= n) /\
    (Forall (fun p => renders w (fst p) (snd p))
            (results_from w password (clients st) (firstn n servers)) ->
     r = Ret tt).
Proof.
  induction servers as [|server servers IH]; intros st.
  - exists (Ret tt), st, 0. cbn. rewrite !app_nil_r, Nat.add_0_r.
    repeat split; auto. congruence.
  - rewrite for_M_cons.
    destruct (poll_step w password server st) as (r & events & Hp & He & Hr & _).
    rewrite Hp.
    set (h := network w (clients st) server password) in *.
    set (st2 := printed events _) in *.
    assert (Hlog : ssh_log st2 = ssh_log st ++ session_events (clients st) server h)
      by reflexivity.
    assert (Hcl : clients st2 = S (clients st)) by reflexivity.
    assert (Hf : fetched st2 = fetched st ++ [(server, fetch_result h)]) by reflexivity.
    assert (Hc : passes (console st2) = passes (console st)).
    { subst st2. unfold printed, recorded, after_fetch. cbn [console].
      rewrite passes_app. lia. }
    destruct r as [[]|e].
    + destruct (IH st2)
        as (r & st' & n & Hrun & Hn & Hlog' & Hcl' & Hf' & Hc' & Hret & _ & Hall).
      exists r, st', (S n). rewrite Hrun. cbn [firstn sessions_from results_from length].
      rewrite Hlog', Hcl', Hf', Hc', Hlog, Hcl, Hf, Hc, <- !app_assoc.
      repeat split; try reflexivity; try lia.
      * intros H. f_equal. auto.
      * intros H. inversion H. auto.
    + exists (Raise e), st2, 1. cbn [firstn sessions_from results_from length].
      rewrite Hlog, Hcl, Hf, Hc, app_nil_r.
      repeat split; try reflexivity; try lia; try discriminate.
      intros H. inversion H as [|? ? Hi _]. apply Hr in Hi. discriminate.
Qed.

Lemma results_from_firstn w password servers :
  forall n client,
    results_from w password client (firstn n servers) =
    firstn n (results_from w password client servers).
Proof.
  induction servers as [|server servers IH]; intros [|n] client; try reflexivity.
  cbn [firstn results_from]. now rewrite IH.
Qed.

Lemma Forall_firstn {A} (P : A -> Prop) n xs : Forall P xs -> Forall P (firstn n xs).
Proof.
  intros H. revert n. induction H as [|x xs Hx _ IH]; intros [|n]; cbn [firstn];
    constructor; auto.
Qed.

Lemma map_fst_results_from w password servers :
  forall client, map fst (results_from w password client servers) = servers.
Proof.
  induction servers as [|server servers IH]; intros client; [reflexivity|].
  cbn [results_from map fst]. now rewrite IH.
Qed.

(** X2: a pass over the targets always returns; it polls them in their
    order, each by a client of its own, and what it collects are the results
    that [get_server_info] gives for the targets polled.  When the console
    renders the result of every target, the pass returns without error
    having polled each of them once: as many results as targets. *)
Theorem poll_cycle_complete :
  forall w password servers st,
  exists r st' n,
    for_M servers (poll w password) st = Some (r, st') /\
    n <= length servers /\
    fetched st' = fetched st ++ results_from w password (clients st) (firstn n servers) /\
    map fst (results_from w password (clients st) (firstn n servers)) = firstn n servers /\
    (Forall (fun p => renders w (fst p) (snd p))
            (results_from w password (clients st) servers) ->
     r = Ret tt /\ n = length servers /\
     fetched st' = fetched st ++ results_from w password (clients st) servers).
Proof.
  intros w password servers st.
  destruct (poll_cycle_exact w password servers st)
    as (r & st' & n & Hrun & Hn & _ & _ & Hf & _ & Hret & _ & Hall).
  exists r, st', n.
  split; [assumption|]. split; [assumption|]. split; [assumption|].
  split; [apply map_fst_results_from|].
  intros Hrenders.
  assert (Hr : r = Ret tt).
  { apply Hall. rewrite results_from_firstn. now apply Forall_firstn. }
  split; [exact Hr|]. split; [exact (Hret Hr)|].
  rewrite Hf, (Hret Hr). now rewrite firstn_all.
Qed.


Lemma main_discovery_raises w fuel st e st1 :
  read_zshrc_aliases w st = Some (Raise e, st1) ->
  main w fuel st = Some (Raise e, st1).
Proof. intros H. unfold main, bind at 1. now rewrite H. Qed.










(** X20: [main] always returns, whatever number of passes, at least one, its
    loop is allowed, and what it does is what it does with one pass allowed:
    the console is cleared at most once, and no second pass starts.  When
    discovery returns targets, the console is cleared exactly once and the
    pass polls the targets in their order, each by a client of its own, the
    first of them always: the results collected are those that
    [get_server_info] gives for the targets polled, which are all the
    targets when [main] returns without an error. *)
Theorem main_runs_one_pass :
  forall w fuel st,
  exists r st',
    main w (S fuel) st = Some (r, st') /\
    main w (S fuel) st = main w 1 st /\
    passes (console st') <= S (passes (console st)) /\
    forall server servers,
      read_zshrc_aliases w st = Some (Ret (server :: servers), st) ->
      passes (console st') = S (passes (console st)) /\
      exists n,
        1 <= n <= length (server :: servers) /\
        fetched st' =
          fetched st ++
          results_from w (typed_password w) (clients st) (firstn n (server :: servers)) /\
        (r = Ret tt -> n = length (server :: servers)).
Proof.
  intros w fuel st.
  assert (Hnone : forall r st1,
             (forall fuel', main w fuel' st = Some (r, st1)) ->
             passes (console st1) = passes (console st) ->
             (forall server servers,
                read_zshrc_aliases w st <> Some (Ret (server :: servers), st)) ->
             exists r st',
               main w (S fuel) st = Some (r, st') /\
               main w (S fuel) st = main w 1 st /\
               passes (console st') <= S (passes (console st)) /\
               forall server servers,
                 read_zshrc_aliases w st = Some (Ret (server :: servers), st) ->
                 passes (console st') = S (passes (console st)) /\
                 exists n,
                   1 <= n <= length (server :: servers) /\
                   fetched st' =
                     fetched st ++
                     results_from w (typed_password w) (clients st)
                       (firstn n (server :: servers)) /\
                   (r = Ret tt -> n = length (server :: servers))).
  { intros r st1 Hmain Hp Hread. exists r, st1.
    split; [apply Hmain|]. split; [now rewrite !Hmain|]. split; [lia|].
    intros server servers H. now apply Hread in H. }
  destruct (zshrc w) as [content|] eqn:Hfile.
  - pose proof (read_zshrc_aliases_loop w content st Hfile) as Hread.
    destruct (discovery_outcome content) as [(targets & E & _)|(msg & E & _)];
      rewrite E in Hread.
    + destruct targets as [|server servers].
      * apply (Hnone (Ret tt) (printed [no_servers_message] st)).
        -- intros fuel'. now apply main_without_servers.
        -- unfold printed. cbn [console]. rewrite passes_app. cbn. lia.
        -- intros s ss. rewrite Hread. discriminate.
      * pose proof (main_pass w st server servers) as Hpass.
        destruct (poll_cycle_exact w (typed_password w) (server :: servers)
                    (pass_start w (server :: servers) st))
          as (r & st' & n & Hrun & Hn & _ & _ & Hf & Hp & Hret & Hfirst & _).
        exists r, st'.
        assert (Hmain : forall fuel', main w (S fuel') st = Some (r, st')).
        { intros fuel'. rewrite (Hpass fuel' Hread), Hrun. now destruct r as [[]|e]. }
        assert (Hpasses : passes (console st') = S (passes (console st))).
        { rewrite Hp. unfold pass_start. cbn [console]. rewrite passes_app. cbn. lia. }
        split; [apply Hmain|]. split; [now rewrite !Hmain|]. split; [lia|].
        intros s ss Hread'. rewrite Hread in Hread'. injection Hread' as <- <-.
        split; [exact Hpasses|]. exists n.
        split; [split; [apply Hfirst; discriminate | exact Hn]|].
        split; [exact Hf | exact Hret].
    + apply (Hnone (Raise (ValueError msg)) st).
      * intros fuel'. now apply main_discovery_raises.
      * reflexivity.
      * intros s ss. rewrite Hread. discriminate.
  - pose proof (read_zshrc_aliases_missing w st Hfile) as Hread.
    apply (Hnone (Ret tt)
             (printed [no_servers_message] (printed [file_not_found_message] st))).
    + intros fuel'. now apply main_without_servers.
    + unfold printed. cbn [console]. rewrite !passes_app. cbn. lia.
    + intros s ss. rewrite Hread. discriminate.
Qed.

(** X21: a failure whose message holds a closing tag stops [main]: with two
    targets of which the first refuses the connection with a message in
    which a path stands between brackets, [get_server_info] returns the
    failure, printing it raises MarkupError, the error leaves the loop and
    [main], and the second target is never polled. *)
Theorem main_stops_at_markup_in_message :
  exists st',
    main world_with_bracketed_message 1 initial =
      Some (Raise (MarkupError
                     "closing tag '[/dev/pts/0]' at position 42 doesn't match any open tag"),
            st') /\
    fetched st' = [(alice, Failure "[Errno 13] Permission denied: [/dev/pts/0]")] /\
    clients st' = 1 /\
    ~ renders world_with_bracketed_message alice
        (Failure "[Errno 13] Permission denied: [/dev/pts/0]").
Proof.
  eexists. split; [vm_compute; reflexivity|]. split; [reflexivity|].
  split; [reflexivity|].
  intros [H _]. apply Forall_inv_tail, Forall_inv in H. vm_compute in H. discriminate H.
Qed.

(** ** The sessions that a run leaves open *)








(** * Further properties of the discovery *)

(** A group at the end of a pattern takes all it can. *)
Lemma plus_maximal {R} cls (k : string -> string -> option R) :
  (forall g rest, k g rest <> None) ->
  forall s taken r,
    Re.plus cls k taken s = Some r ->
    exists g rest,
      g <> EmptyString /\ Str.all_chars cls g = true /\
      s = (g ++ rest)%string /\
      match rest with
      | EmptyString => True
      | String c _ => cls c = false
      end /\
      k (taken ++ g)%string rest = Some r.
Proof.
  intros Hk. induction s as [|a s IH]; intros taken r; simpl; [discriminate|].
  destruct (cls a) eqn:Ha; [|discriminate].
  destruct (Re.plus cls k (taken ++ String a EmptyString) s) as [r'|] eqn:E.
  - intros H. injection H as ->.
    destruct (IH _ _ E) as (g & rest & _ & Hg & -> & Hend & Hk').
    exists (String a g), rest. rewrite append_assoc in Hk'.
    repeat split; [discriminate | simpl; now rewrite Ha | exact Hend | exact Hk'].
  - intros Hk'. exists (String a EmptyString), s.
    repeat split; [discriminate | simpl; now rewrite Ha | | exact Hk'].
    destruct s as [|c s]; [exact I|].
    simpl in E. destruct (cls c); [|reflexivity].
    destruct (Re.plus cls k _ s); [discriminate|].
    now apply Hk in E.
Qed.

Lemma ssh_match_whole_host t groups rest :
  Re.match_here ssh_pattern t = Some (groups, rest) -> ends_host rest.
Proof.
  unfold ssh_pattern. cbn [Re.lits app Re.match_here].
  do 7 (destruct t as [|? t]; [discriminate|];
        match goal with
        | |- (if Ascii.eqb ?x ?y then _ else _) = _ -> _ =>
            destruct (Ascii.eqb_spec x y) as [<-|]; [|discriminate]
        end).
  intros H.
  apply plus_sound in H as (port & t1 & _ & _ & -> & H).
  destruct t1 as [|? t1]; [discriminate|].
  destruct (Ascii.eqb_spec " " a) as [<-|]; [|discriminate].
  destruct (Re.plus _ _ _ t1) as [[gs r]|] eqn:E; [|discriminate].
  injection H as <- <-.
  apply plus_sound in E as (user & t2 & _ & _ & -> & H).
  destruct t2 as [|? t2]; [discriminate|].
  destruct (Ascii.eqb_spec "@" a) as [<-|]; [|discriminate].
  destruct (Re.plus _ _ _ t2) as [[gs' r']|] eqn:E; [|discriminate].
  injection H as <- <-.
  apply plus_maximal in E as (host & t3 & _ & _ & -> & Hend & H);
    [|discriminate].
  injection H as <- <-. exact Hend.
Qed.

(** X18: the host of a discovered target is never cut short: each target
    comes from an occurrence of [ssh -P <port> <user>@<host>] in its line
    whose host is followed by the end of the line or by a character that is
    neither a digit nor a dot. *)
Theorem discovered_host_is_whole :
  forall line target,
    In target (line_targets line) ->
    exists before port user after,
      line = (before ++ "ssh -P " ++ port ++ " " ++ user ++ "@" ++
              host target ++ after)%string /\
      username target = user /\
      port <> EmptyString /\ Str.all_chars is_digit port = true /\
      ends_host after.
Proof.
  intros line target H. unfold line_targets in H.
  apply in_map_iff in H as (groups & <- & H).
  apply scan_occurrences in H as (before & t & rest & -> & H).
  pose proof (ssh_match_whole_host _ _ _ H) as Hend.
  apply ssh_match_groups in H
    as (port & user & host & -> & Hp & Dp & _ & _ & _ & _ & ->).
  exists before, port, user, rest. repeat split; assumption.
Qed.

Lemma discovered_host_is_whole_witness :
  exists before port user after,
    "alias gpu1='ssh -P 22 alice@10.0.0.5'" =
      (before ++ "ssh -P " ++ port ++ " " ++ user ++ "@" ++ host alice ++ after)%string /\
    username alice = user /\
    port <> EmptyString /\ Str.all_chars is_digit port = true /\
    ends_host after.
Proof.
  apply (discovered_host_is_whole "alias gpu1='ssh -P 22 alice@10.0.0.5'" alice).
  vm_compute. left. reflexivity.
Defined.

(** * Further properties of one target *)

(** X19: [get_server_info] returns a failure exactly when connecting raises
    or [df -h] raises, with the message of that error; an error of the GPU
    command never makes a failure, and a success always carries the storage
    records read in the output of [df -h]. *)
Theorem get_server_info_fails_exactly :
  forall w server password st,
  exists info st',
    get_server_info w server password st = Some (Ret info, st') /\
    (forall message,
       info = Failure message <->
       exists e,
         message = str_of_exn e /\
         (refuses (network w (clients st) server password) = Some e \/
          (refuses (network w (clients st) server password) = None /\
           run (network w (clients st) server password) "df -h" = Raise e))) /\
    (forall gpus storage,
       info = Success gpus storage ->
       exists out,
         refuses (network w (clients st) server password) = None /\
         run (network w (clients st) server password) "df -h" = Ret out /\
         parse_storage_info out = Ret storage).
Proof.
  intros w server password st. eexists. eexists.
  split; [apply get_server_info_eq|].
  unfold fetch_result.
  destruct (refuses (network w (clients st) server password)) as [e|] eqn:Hr.
  - split; [|discriminate].
    intros message. split.
    + intros [= <-]. exists e. auto.
    + intros (e' & -> & [[= ->]|[[=] _]]). reflexivity.
  - destruct (run (network w (clients st) server password) "df -h") as [out|e] eqn:Hd.
    + split.
      * intros message. split; [discriminate|].
        intros (e' & _ & [[=]|[_ [=]]]).
      * intros gpus storage [= <- <-]. exists out.
        repeat split. apply parse_storage_info_eq.
    + split; [|discriminate].
      intros message. split.
      * intros [= <-]. exists e. auto.
      * intros (e' & -> & [[=]|[_ [= ->]]]). reflexivity.
Qed.
